(** * Anchor encoders of 3DSSD ([lib/utils/anchor_encoder.py])

    A shallow embedding of the four anchor encoders and of the NumPy and
    TensorFlow primitives they are built from, followed by the properties the
    specification states about them.

    Numbers.  The source computes on IEEE floating-point arrays.  The
    embedding idealises every floating-point number as a real number ([R]):
    [+], [-], [*], [/], [sqrt], [log] and the floored modulo are the exact
    operations, so rounding, NaN and infinities are outside the model.  The
    places where the source would produce NaN or an infinity (a zero divisor,
    the logarithm of a non-positive number) are excluded by the hypotheses of
    the theorems that mention them.

    Rounding.  Where rounding decides what the source returns (the class of
    an angle within rounding of a bin boundary), the real-number embedding
    and the source part ways.  For the angle encoder the file therefore has a
    second embedding, [Binary64.encode_angle2class_np], on IEEE binary64
    numbers with every operation rounded as the source rounds it; the
    statements about rounding are made of that one, and every statement about
    the real-number embedding says that it holds in exact real arithmetic.

    Errors.  A Python exception is a value: every function that can raise
    returns a [result]. *)

From Stdlib Require Import Reals Lra Lia ZArith List Bool Zfloor.
From Stdlib Require Floats.
Import ListNotations.

Open Scope R_scope.

(** ** Python exceptions as results *)

Inductive exn : Type :=
| AssertionError
| ZeroDivisionError
| ValueError
| IndexError
| OverflowError.

Inductive result (A : Type) : Type :=
| Ok (a : A)
| Raise (e : exn).

Arguments Ok {A} a.
Arguments Raise {A} e.

Definition bind {A B : Type} (m : result A) (k : A -> result B) : result B :=
  match m with
  | Ok a => k a
  | Raise e => Raise e
  end.

Notation "x <- m ;; k" := (bind m (fun x => k))
  (at level 61, m at next level, right associativity).
Notation "' p <- m ;; k" := (bind m (fun x => match x with p => k end))
  (at level 61, p pattern, m at next level, right associativity).

(** [mapM f l]: run [f] on every element, left to right, stopping at the
    first exception. *)
Fixpoint mapM {A B : Type} (f : A -> result B) (l : list A) : result (list B) :=
  match l with
  | [] => Ok []
  | a :: l' => b <- f a ;; bs <- mapM f l' ;; Ok (b :: bs)
  end.

(** ** Comparisons of reals as booleans *)

Definition Rleb (x y : R) : bool := if Rle_dec x y then true else false.
Definition Rgeb (x y : R) : bool := if Rge_dec x y then true else false.

(** ** Scalar NumPy primitives *)

Module Np.

(** [np.mod(x, y)], also the [%] of arrays: the floored remainder, which has
    the sign of the divisor.  ([mod] is a reserved word, hence [mod_].) *)
Definition mod_ (x y : R) : R := x - IZR (Zfloor (x / y)) * y.

(** [x.astype(np.int)]: conversion of a float to an integer truncates
    towards zero. *)
Definition astype_int (x : R) : Z :=
  if Rle_dec 0 x then Zfloor x else Zceil x.

(** [np.all] of a boolean array. *)
Definition all (l : list bool) : bool := forallb (fun b => b) l.

(** [np.logical_and], elementwise. *)
Fixpoint logical_and (a b : list bool) : list bool :=
  match a, b with
  | x :: a', y :: b' => (x && y)%bool :: logical_and a' b'
  | _, _ => []
  end.

End Np.

(** ** Encode Angle *)

(** An array of any shape is handled elementwise by [encode_angle2class_np],
    so the angle array is embedded flattened, as the list of its elements (a
    scalar is the one-element list).  [num_class] is a Python integer.

    [float(num_class)] is [0.0] when [num_class] is [0], and the Python
    division [2*np.pi/0.0] raises [ZeroDivisionError]; the later division by
    [num_class] is only reached when [num_class] is not [0]. *)

Definition py_div (x y : R) : result R :=
  if Req_dec_T y 0 then Raise ZeroDivisionError else Ok (x / y).

Definition py_assert (b : bool) : result unit :=
  if b then Ok tt else Raise AssertionError.

(** Elementwise binary operation on two flattened arrays of one shape. *)
Fixpoint zip_with {A B C : Type} (f : A -> B -> C) (a : list A) (b : list B)
  : list C :=
  match a, b with
  | x :: a', y :: b' => f x y :: zip_with f a' b'
  | _, _ => []
  end.

Definition encode_angle2class_np (angle : list R) (num_class : Z)
  : result (list Z * list R) :=
  let angle := map (fun a => Np.mod_ a (2 * PI)) angle in
  _ <- py_assert (Np.all (Np.logical_and
                            (map (fun a => Rgeb a 0) angle)
                            (map (fun a => Rleb a (2 * PI)) angle))) ;;
  angle_per_class <- py_div (2 * PI) (IZR num_class) ;;
  let shifted_angle :=
    map (fun a => Np.mod_ (a + angle_per_class / 2) (2 * PI)) angle in
  let class_id :=
    map (fun s => Np.astype_int (s / angle_per_class)) shifted_angle in
  let residual_angle :=
    zip_with (fun s c => s - (IZR c * angle_per_class + angle_per_class / 2))
             shifted_angle class_id in
  (* finally normalize residual angle to [0, 1] *)
  let residual_angle :=
    map (fun r => r / (2 * PI / IZR num_class)) residual_angle in
  Ok (class_id, residual_angle).

(** ** Encode Angle, in binary64

    The same function on IEEE binary64 numbers (Rocq's primitive floats),
    operation by operation, with the rounding of every [+], [-], [*] and
    [/].  It is used for the statements that depend on rounding; the
    embedding on real numbers above is the one that every other statement is
    about. *)

Module Binary64.
Import PrimFloat SpecFloat FloatOps.

(** [np.pi], [0x1.921fb54442d18p+1]. *)
Definition pi : float := SF2Prim (S754_finite false 7074237752028440 (-51)).

(** Conversion of an integer to a float, correctly rounded (to nearest,
    ties to even); an integer beyond the largest float gives an infinity. *)
Definition of_int (z : Z) : float :=
  SF2Prim (binary_normalize prec emax z 0 false).

(** [float(n)] of a Python integer: [OverflowError] when [n] is too large
    for a float. *)
Definition py_float (n : Z) : result float :=
  let f := of_int n in
  if is_infinity f then Raise OverflowError else Ok f.

(** Python's [x / y] on floats. *)
Definition py_div (x y : float) : result float :=
  if is_zero y then Raise ZeroDivisionError else Ok (x / y)%float.

(** C's [fmod]: the remainder of the division truncated towards zero; it is
    computed exactly and has the sign of [x]. *)
Definition fmod (x y : float) : float :=
  match Prim2SF x, Prim2SF y with
  | S754_finite sx mx ex, S754_finite _ my ey =>
      let e := Z.min ex ey in
      match Z.rem (Zpos mx * 2 ^ (ex - e)) (Zpos my * 2 ^ (ey - e)) with
      | Zpos r => SF2Prim (S754_finite sx r e)
      | _ => if sx then neg_zero else zero
      end
  | S754_finite _ _ _, S754_infinity _ => x
  | S754_zero _, S754_finite _ _ _ => x
  | S754_zero _, S754_infinity _ => x
  | _, _ => nan
  end.

(** [np.mod(a, b)], also the [%] of arrays: [fmod], moved by [b] when its
    sign is not the sign of [b] (NumPy's [npy_divmod]). *)
Definition mod_ (a b : float) : float :=
  let m := fmod a b in
  if is_zero b then m
  else if negb (m =? zero)%float then
         if xorb (b <? zero)%float (m <? zero)%float then (m + b)%float else m
       else if (b <? zero)%float then neg_zero else zero.

(** [x.astype(np.int)] with a 64-bit [np.int]: truncation towards zero; a
    NaN, an infinity or a value outside the 64-bit range converts to
    [-2^63]. *)
Definition astype_int (x : float) : Z :=
  match Prim2SF x with
  | S754_zero _ => 0%Z
  | S754_finite s m e =>
      let v := if (0 <=? e)%Z then (Zpos m * 2 ^ e)%Z
               else (Zpos m / 2 ^ (- e))%Z in
      let v := if s then (- v)%Z else v in
      if ((- 2 ^ 63 <=? v) && (v <? 2 ^ 63))%Z then v else (- 2 ^ 63)%Z
  | _ => (- 2 ^ 63)%Z
  end.

Definition encode_angle2class_np (angle : list float) (num_class : Z)
  : result (list Z * list float) :=
  let two_pi := (of_int 2 * pi)%float in
  let angle := map (fun a => mod_ a two_pi) angle in
  _ <- py_assert (Np.all (Np.logical_and
                            (map (fun a => (zero <=? a)%float) angle)
                            (map (fun a => (a <=? two_pi)%float) angle))) ;;
  float_num_class <- py_float num_class ;;
  angle_per_class <- py_div two_pi float_num_class ;;
  let shifted_angle :=
    map (fun a => mod_ (a + angle_per_class / of_int 2) two_pi)%float angle in
  let class_id :=
    map (fun s => astype_int (s / angle_per_class)%float) shifted_angle in
  let residual_angle :=
    zip_with (fun s c =>
                (s - (of_int c * angle_per_class
                      + angle_per_class / of_int 2))%float)
             shifted_angle class_id in
  (* finally normalize residual angle to [0, 1] *)
  let residual_angle :=
    map (fun r => (r / (two_pi / float_num_class))%float) residual_angle in
  Ok (class_id, residual_angle).

(** The Python expression [p*np.pi/q]. *)
Definition pi_times (p q : Z) : float := (of_int p * pi / of_int q)%float.

(** The Python expression [theta + 2*np.pi*k]. *)
Definition plus_turns (theta : float) (k : Z) : float :=
  (theta + of_int 2 * pi * of_int k)%float.

(** The Python expression [theta + 2*np.pi/num_class], an angle turned by
    one bin. *)
Definition plus_bin (theta : float) (num_class : Z) : float :=
  (theta + of_int 2 * pi / of_int num_class)%float.

End Binary64.

(** ** Tensors

    A tensor of shape [[bs, points_num, k]] is a list of [bs] lists of
    [points_num] rows of [k] numbers; a tensor of shape [[bs, points_num]]
    is a list of [bs] rows of [points_num] numbers. *)

Definition tensor2 : Type := list (list R).
Definition tensor3 : Type := list (list (list R)).

Definition shape2 {X : Type} (bs n : nat) (t : list (list X)) : Prop :=
  length t = bs /\ Forall (fun r => length r = n) t.

Definition shape3 (bs n k : nat) (t : tensor3) : Prop :=
  shape2 bs n t /\ Forall (Forall (fun row => length row = k)) t.

(** [t.[i, j, k]]: the element at index [(i, j, k)]. *)
Definition at3 (t : tensor3) (i j k : nat) : R :=
  nth k (nth j (nth i t []) []) 0.

Section Elementwise.
Context {A B C : Type}.

(** Two axes of the same length are combined index by index; lengths that
    differ cannot be combined ([ValueError]). *)
Fixpoint zipM (f : A -> B -> result C) (a : list A) (b : list B)
  : result (list C) :=
  match a, b with
  | [], [] => Ok []
  | x :: a', y :: b' => c <- f x y ;; cs <- zipM f a' b' ;; Ok (c :: cs)
  | _, _ => Raise ValueError
  end.

(** Broadcasting of one axis, as NumPy and TensorFlow do it for operands of
    the same rank: an axis of length 1 is stretched to the length of the
    other operand's axis. *)
Definition broadcast (f : A -> B -> result C) (a : list A) (b : list B)
  : result (list C) :=
  match a, b with
  | [x], _ => mapM (f x) b
  | _, [y] => mapM (fun x => f x y) a
  | _, _ => zipM f a b
  end.
End Elementwise.

(** Elementwise binary operators ([-], [/]) on tensors of rank 2 and 3. *)
Definition elementwise2 (f : R -> R -> R) (a b : tensor2) : result tensor2 :=
  broadcast (broadcast (fun x y => Ok (f x y))) a b.

Definition elementwise3 (f : R -> R -> R) (a b : tensor3) : result tensor3 :=
  broadcast (broadcast (broadcast (fun x y => Ok (f x y)))) a b.

(** Sum of the squares of a row, the quantity under the square root of the
    Euclidean norm. *)
Definition sum_sq (row : list R) : R :=
  fold_right (fun v acc => v * v + acc) 0 row.

(** Stacking along a new last axis (the [axis=-1] of [tf.stack] and
    [np.stack]): every array must have the same shape. *)
Definition stack_last (l : list tensor2) : result tensor3 :=
  match l with
  | [] => Raise ValueError
  | t :: ts =>
      fold_left
        (fun acc u =>
           a <- acc ;;
           zipM (zipM (fun (row : list R) (x : R) => Ok (row ++ [x]))) a u)
        ts (Ok (map (map (fun x => [x])) t))
  end.

(** ** TensorFlow primitives *)

Module Tf.

(** [a, b, c = tf.unstack(t, axis=-1)]: the last axis must have exactly
    three entries for the unpacking to succeed. *)
Definition unstack3 (t : tensor3) : result (tensor2 * tensor2 * tensor2) :=
  rows <- mapM (mapM (fun row : list R =>
                        match row with
                        | [a; b; c] => Ok (a, b, c)
                        | _ => Raise ValueError
                        end)) t ;;
  Ok (map (map (fun v => fst (fst v))) rows,
      map (map (fun v => snd (fst v))) rows,
      map (map (fun v => snd v)) rows).

Definition stack (l : list tensor2) : result tensor3 := stack_last l.

(** [tf.norm(t, axis=-1)]. *)
Definition norm (t : tensor3) : tensor2 :=
  map (map (fun row => sqrt (sum_sq row))) t.

Definition sub := elementwise2 Rminus.
Definition div := elementwise2 Rdiv.
Definition sub3 := elementwise3 Rminus.

Definition log (t : tensor2) : tensor2 := map (map ln) t.

(** [t / 2.] *)
Definition div_scalar (t : tensor3) (c : R) : tensor3 :=
  map (map (map (fun x => x / c))) t.

(** [t[:, :, 1]]; a last axis shorter than 2 is rejected when the slice is
    built. *)
Definition index_last_1 (t : tensor3) : result tensor2 :=
  mapM (mapM (fun row : list R =>
                match nth_error row 1 with
                | Some v => Ok v
                | None => Raise ValueError
                end)) t.

Definition zeros_like (t : tensor2) : tensor2 := map (map (fun _ => 0)) t.

End Tf.

(** ** NumPy primitives on tensors *)

Module NpT.

(** One row of [np.split(t, 3, axis=-1)]: three sections of equal width;
    a width not divisible by 3 is a [ValueError]. *)
Definition split3_row (row : list R)
  : result (list R * list R * list R) :=
  let k := length row in
  if (k mod 3 =? 0)%nat then
    let w := (k / 3)%nat in
    Ok (firstn w row, firstn w (skipn w row), skipn (2 * w) row)
  else Raise ValueError.

(** [a, b, c = np.split(t, 3, axis=-1)]. *)
Definition split3 (t : tensor3) : result (tensor3 * tensor3 * tensor3) :=
  rows <- mapM (mapM split3_row) t ;;
  Ok (map (map (fun v => fst (fst v))) rows,
      map (map (fun v => snd (fst v))) rows,
      map (map (fun v => snd v)) rows).

(** [np.concatenate(l, axis=-1)]: the arrays must agree on every axis but
    the last. *)
Definition concatenate (l : list tensor3) : result tensor3 :=
  match l with
  | [] => Raise ValueError
  | t :: ts =>
      fold_left
        (fun acc u =>
           a <- acc ;;
           zipM (zipM (fun (r s : list R) => Ok (r ++ s))) a u)
        ts (Ok t)
  end.

Definition stack (l : list tensor2) : result tensor3 := stack_last l.

(** [np.linalg.norm(t, axis=-1, keepdims=True)]. *)
Definition linalg_norm (t : tensor3) : tensor3 :=
  map (map (fun row => [sqrt (sum_sq row)])) t.

Definition sub := elementwise3 Rminus.
Definition div := elementwise3 Rdiv.

Definition log (t : tensor3) : tensor3 := map (map (map ln)) t.

(** [t / 2.] *)
Definition div_scalar (t : tensor3) (c : R) : tensor3 :=
  map (map (map (fun x => x / c))) t.

(** [t[:, :, 1]]. *)
Definition index_last_1 (t : tensor3) : result tensor2 :=
  mapM (mapM (fun row : list R =>
                match nth_error row 1 with
                | Some v => Ok v
                | None => Raise IndexError
                end)) t.

Definition zeros_like (t : tensor2) : tensor2 := map (map (fun _ => 0)) t.

End NpT.

(** ** Log-Anchor *)

(* tf *)
Definition encode_log_anchor (gt_ctr gt_offset anchor_ctr anchor_offset : tensor3)
  : result (tensor3 * tensor3) :=
  '(gt_l, gt_h, gt_w) <- Tf.unstack3 gt_offset ;;
  '(anchor_l, anchor_h, anchor_w) <- Tf.unstack3 anchor_offset ;;
  anchor_d <- Tf.stack [anchor_l; anchor_w] ;;
  let anchor_d := Tf.norm anchor_d in
  '(gt_x, gt_y, gt_z) <- Tf.unstack3 gt_ctr ;;
  '(anchor_x, anchor_y, anchor_z) <- Tf.unstack3 anchor_ctr ;;
  dx <- Tf.sub gt_x anchor_x ;; encode_x <- Tf.div dx anchor_d ;;
  dy <- Tf.sub gt_y anchor_y ;; encode_y <- Tf.div dy anchor_h ;;
  dz <- Tf.sub gt_z anchor_z ;; encode_z <- Tf.div dz anchor_d ;;
  ql <- Tf.div gt_l anchor_l ;; let encode_l := Tf.log ql in
  qh <- Tf.div gt_h anchor_h ;; let encode_h := Tf.log qh in
  qw <- Tf.div gt_w anchor_w ;; let encode_w := Tf.log qw in
  encoded_ctr <- Tf.stack [encode_x; encode_y; encode_z] ;;
  encoded_offset <- Tf.stack [encode_l; encode_h; encode_w] ;;
  Ok (encoded_ctr, encoded_offset).

(* numpy *)
Definition encode_log_anchor_np
  (gt_ctr gt_offset anchor_ctr anchor_offset : tensor3)
  : result (tensor3 * tensor3) :=
  '(gt_l, gt_h, gt_w) <- NpT.split3 gt_offset ;;
  '(anchor_l, anchor_h, anchor_w) <- NpT.split3 anchor_offset ;;
  anchor_d <- NpT.concatenate [anchor_l; anchor_w] ;;
  let anchor_d := NpT.linalg_norm anchor_d in
  '(gt_x, gt_y, gt_z) <- NpT.split3 gt_ctr ;;
  '(anchor_x, anchor_y, anchor_z) <- NpT.split3 anchor_ctr ;;
  dx <- NpT.sub gt_x anchor_x ;; encode_x <- NpT.div dx anchor_d ;;
  dy <- NpT.sub gt_y anchor_y ;; encode_y <- NpT.div dy anchor_h ;;
  dz <- NpT.sub gt_z anchor_z ;; encode_z <- NpT.div dz anchor_d ;;
  ql <- NpT.div gt_l anchor_l ;; let encode_l := NpT.log ql in
  qh <- NpT.div gt_h anchor_h ;; let encode_h := NpT.log qh in
  qw <- NpT.div gt_w anchor_w ;; let encode_w := NpT.log qw in
  encoded_ctr <- NpT.concatenate [encode_x; encode_y; encode_z] ;;
  encoded_offset <- NpT.concatenate [encode_l; encode_h; encode_w] ;;
  Ok (encoded_ctr, encoded_offset).

(** ** Dist-Anchor *)

(** The operators of [encode_dist_anchor] are those of its arguments; on
    arrays and on tensors alike they are elementwise with broadcasting. *)
Definition encode_dist_anchor
  (gt_ctr gt_offset anchor_ctr anchor_offset : tensor3)
  : result (tensor3 * tensor3) :=
  encoded_ctr <- elementwise3 Rminus gt_ctr anchor_ctr ;;
  d <- elementwise3 Rminus gt_offset anchor_offset ;;
  encoded_offset <- elementwise3 Rdiv d anchor_offset ;;
  Ok (encoded_ctr, encoded_offset).

(** ** Dist-Anchor-Free *)

(* tf *)
Definition encode_dist_anchor_free
  (gt_ctr gt_offset anchor_ctr : tensor3) (anchor_offset : option tensor3)
  : result (tensor3 * tensor3) :=
  let target_ctr_half := Tf.div_scalar gt_offset 2 in
  (* translate to center *)
  padding_half_height <- Tf.index_last_1 target_ctr_half ;;
  let padding_zeros := Tf.zeros_like padding_half_height in
  padding_translate <-
    Tf.stack [padding_zeros; padding_half_height; padding_zeros] ;;
  encoded_ctr <- Tf.sub3 gt_ctr padding_translate ;; (* to object center *)
  encoded_ctr <- Tf.sub3 encoded_ctr anchor_ctr ;;
  Ok (encoded_ctr, target_ctr_half).

(* np *)
Definition encode_dist_anchor_free_np
  (gt_ctr gt_offset anchor_ctr : tensor3) (anchor_offset : option tensor3)
  : result (tensor3 * tensor3) :=
  let target_ctr_half := NpT.div_scalar gt_offset 2 in
  (* translate to center *)
  padding_half_height <- NpT.index_last_1 target_ctr_half ;;
  let padding_zeros := NpT.zeros_like padding_half_height in
  padding_translate <-
    NpT.stack [padding_zeros; padding_half_height; padding_zeros] ;;
  encoded_ctr <- NpT.sub gt_ctr padding_translate ;; (* to object center *)
  encoded_ctr <- NpT.sub encoded_ctr anchor_ctr ;;
  Ok (encoded_ctr, target_ctr_half).

(** ** Elementwise views

    What the encoders compute for one angle and for one box, written as
    closed formulas.  The theorems below relate the array programs above to
    these. *)

(** The bin width [2π / num_class]. *)
Definition angle_per_class (num_class : Z) : R := 2 * PI / IZR num_class.

(** The angle after normalisation and the shift by half a bin. *)
Definition shifted_angle (a : R) (num_class : Z) : R :=
  Np.mod_ (Np.mod_ a (2 * PI) + angle_per_class num_class / 2) (2 * PI).

Definition angle_class (a : R) (num_class : Z) : Z :=
  Np.astype_int (shifted_angle a num_class / angle_per_class num_class).

Definition angle_residual (a : R) (num_class : Z) : R :=
  (shifted_angle a num_class
   - (IZR (angle_class a num_class) * angle_per_class num_class
      + angle_per_class num_class / 2))
  / (2 * PI / IZR num_class).

(** ** Boxes

    A center or an offset is a triple; a sample is the ground-truth box and
    the anchor of one point: [(gt_ctr, gt_offset, anchor_ctr,
    anchor_offset)]. *)

Definition vec3 : Type := (R * R * R)%type.
Definition row3 (v : vec3) : list R := [fst (fst v); snd (fst v); snd v].

Definition sample : Type := (vec3 * vec3 * vec3 * vec3)%type.
Definition s_gt_ctr (z : sample) : vec3 := fst (fst (fst z)).
Definition s_gt_offset (z : sample) : vec3 := snd (fst (fst z)).
Definition s_anchor_ctr (z : sample) : vec3 := snd (fst z).
Definition s_anchor_offset (z : sample) : vec3 := snd z.

(** The four input tensors of one batch of samples. *)
Definition t_gt_ctr (T : list (list sample)) : tensor3 :=
  map (map (fun z => row3 (s_gt_ctr z))) T.
Definition t_gt_offset (T : list (list sample)) : tensor3 :=
  map (map (fun z => row3 (s_gt_offset z))) T.
Definition t_anchor_ctr (T : list (list sample)) : tensor3 :=
  map (map (fun z => row3 (s_anchor_ctr z))) T.
Definition t_anchor_offset (T : list (list sample)) : tensor3 :=
  map (map (fun z => row3 (s_anchor_offset z))) T.

(** The log-anchor encoding of one sample. *)
Definition log_anchor_ctr_box (z : sample) : list R :=
  let '(gt_x, gt_y, gt_z) := s_gt_ctr z in
  let '(anchor_x, anchor_y, anchor_z) := s_anchor_ctr z in
  let '(anchor_l, anchor_h, anchor_w) := s_anchor_offset z in
  let anchor_d := sqrt (anchor_l * anchor_l + anchor_w * anchor_w) in
  [(gt_x - anchor_x) / anchor_d;
   (gt_y - anchor_y) / anchor_h;
   (gt_z - anchor_z) / anchor_d].

Definition log_anchor_offset_box (z : sample) : list R :=
  let '(gt_l, gt_h, gt_w) := s_gt_offset z in
  let '(anchor_l, anchor_h, anchor_w) := s_anchor_offset z in
  [ln (gt_l / anchor_l); ln (gt_h / anchor_h); ln (gt_w / anchor_w)].

(** The distance-anchor encoding of one sample. *)
Definition dist_anchor_ctr_box (z : sample) : list R :=
  let '(gt_x, gt_y, gt_z) := s_gt_ctr z in
  let '(anchor_x, anchor_y, anchor_z) := s_anchor_ctr z in
  [gt_x - anchor_x; gt_y - anchor_y; gt_z - anchor_z].

Definition dist_anchor_offset_box (z : sample) : list R :=
  let '(gt_l, gt_h, gt_w) := s_gt_offset z in
  let '(anchor_l, anchor_h, anchor_w) := s_anchor_offset z in
  [(gt_l - anchor_l) / anchor_l;
   (gt_h - anchor_h) / anchor_h;
   (gt_w - anchor_w) / anchor_w].

(** The anchor-free encoding of one sample. *)
Definition anchor_free_ctr_box (z : sample) : list R :=
  let '(gt_x, gt_y, gt_z) := s_gt_ctr z in
  let '(gt_l, gt_h, gt_w) := s_gt_offset z in
  let '(anchor_x, anchor_y, anchor_z) := s_anchor_ctr z in
  [gt_x - 0 - anchor_x; gt_y - gt_h / 2 - anchor_y; gt_z - 0 - anchor_z].

Definition anchor_free_half_box (z : sample) : list R :=
  let '(gt_l, gt_h, gt_w) := s_gt_offset z in
  [gt_l / 2; gt_h / 2; gt_w / 2].

(** Tensors all of whose entries are positive, or non-zero. *)
Definition positive3 (t : tensor3) : Prop :=
  Forall (Forall (Forall (fun x => 0 < x))) t.

Definition nonzero3 (t : tensor3) : Prop :=
  Forall (Forall (Forall (fun x => x <> 0))) t.

Definition sample0 : sample := ((0, 0, 0), (0, 0, 0), (0, 0, 0), (0, 0, 0)).

(** The sample of point [j] of batch entry [i]. *)
Definition sample_at (T : list (list sample)) (i j : nat) : sample :=
  nth j (nth i T []) sample0.

(** [s * t], the product of a tensor by a scalar, and what it does to one
    triple and to one sample. *)
Definition scale3 (s : R) (t : tensor3) : tensor3 :=
  map (map (map (fun x => s * x))) t.

Definition scale_vec3 (s : R) (v : vec3) : vec3 :=
  (s * fst (fst v), s * snd (fst v), s * snd v).

Definition scale_sample (s : R) (z : sample) : sample :=
  (scale_vec3 s (s_gt_ctr z), scale_vec3 s (s_gt_offset z),
   scale_vec3 s (s_anchor_ctr z), scale_vec3 s (s_anchor_offset z)).

(** ** Properties of the scalar primitives *)

Section ScalarFacts.

Lemma Rgeb_true (x y : R) : x >= y -> Rgeb x y = true.
Proof. intros H. unfold Rgeb. destruct (Rge_dec x y); [reflexivity | contradiction]. Qed.

Lemma Rleb_true (x y : R) : x <= y -> Rleb x y = true.
Proof. intros H. unfold Rleb. destruct (Rle_dec x y); [reflexivity | contradiction]. Qed.

Lemma two_PI_pos : 0 < 2 * PI.
Proof. pose proof PI_RGT_0. lra. Qed.

(** The floored remainder by a positive divisor lies in [[0, y)]. *)
Lemma mod_range (x y : R) : 0 < y -> 0 <= Np.mod_ x y < y.
Proof.
  intros Hy. unfold Np.mod_.
  destruct (Zfloor_bound (x / y)) as [Hlo Hhi].
  assert (Hx : x = x / y * y) by (field; lra).
  split.
  - apply (Rmult_le_compat_r y) in Hlo; [| lra]. lra.
  - apply (Rmult_lt_compat_r y) in Hhi; [| lra]. lra.
Qed.

(** Adding a whole number of periods does not change the remainder. *)
Lemma mod_add_period (x y : R) (k : Z) :
  y <> 0 -> Np.mod_ (x + IZR k * y) y = Np.mod_ x y.
Proof.
  intros Hy. unfold Np.mod_.
  replace ((x + IZR k * y) / y) with (x / y + IZR k) by (field; assumption).
  rewrite Zfloor_addz, plus_IZR. ring.
Qed.

(** A number already in [[0, y)] is its own remainder. *)
Lemma mod_small (x y : R) : 0 <= x < y -> Np.mod_ x y = x.
Proof.
  intros [Hlo Hhi]. unfold Np.mod_.
  assert (Hy : 0 < y) by lra.
  rewrite (Zfloor_eq 0).
  - simpl. ring.
  - simpl. split.
    + apply Rmult_le_pos; [assumption |]. left. apply Rinv_0_lt_compat, Hy.
    + apply (Rmult_lt_reg_r y); [assumption |].
      replace (x / y * y) with x by (field; lra). lra.
Qed.

(** Truncation of a non-negative number is its floor. *)
Lemma astype_int_nonneg (x : R) : 0 <= x -> Np.astype_int x = Zfloor x.
Proof.
  intros H. unfold Np.astype_int.
  destruct (Rle_dec 0 x); [reflexivity | contradiction].
Qed.

End ScalarFacts.

(** ** Properties of one encoded angle *)

Section OneAngle.
Variable a : R.
Variable num_class : Z.
Hypothesis Hnc : (1 <= num_class)%Z.

Lemma IZR_num_class_pos : 1 <= IZR num_class.
Proof. apply IZR_le in Hnc. exact Hnc. Qed.

Lemma angle_per_class_pos : 0 < angle_per_class num_class.
Proof.
  unfold angle_per_class. pose proof IZR_num_class_pos. pose proof two_PI_pos.
  apply Rdiv_lt_0_compat; lra.
Qed.

Lemma shifted_angle_range : 0 <= shifted_angle a num_class < 2 * PI.
Proof. unfold shifted_angle. apply mod_range, two_PI_pos. Qed.

(** The shifted angle, counted in bins, lies in [[0, num_class)]. *)
Lemma bins_range :
  0 <= shifted_angle a num_class / angle_per_class num_class < IZR num_class.
Proof.
  pose proof shifted_angle_range as [Hlo Hhi].
  pose proof angle_per_class_pos as Hp.
  pose proof IZR_num_class_pos as Hn.
  split.
  - apply Rmult_le_pos; [assumption |]. left. apply Rinv_0_lt_compat, Hp.
  - apply (Rmult_lt_reg_r (angle_per_class num_class)); [assumption |].
    replace (shifted_angle a num_class / angle_per_class num_class
             * angle_per_class num_class)
      with (shifted_angle a num_class) by (field; lra).
    replace (IZR num_class * angle_per_class num_class) with (2 * PI)
      by (unfold angle_per_class; field; lra).
    exact Hhi.
Qed.

Lemma angle_class_floor :
  angle_class a num_class
  = Zfloor (shifted_angle a num_class / angle_per_class num_class).
Proof. unfold angle_class. apply astype_int_nonneg, bins_range. Qed.

Lemma angle_class_range : (0 <= angle_class a num_class <= num_class - 1)%Z.
Proof.
  rewrite angle_class_floor.
  pose proof bins_range as [Hlo Hhi].
  split.
  - apply Zfloor_lub. simpl. exact Hlo.
  - destruct (Zfloor_bound (shifted_angle a num_class / angle_per_class num_class))
      as [Hf _].
    assert (Hlt : IZR (Zfloor (shifted_angle a num_class
                               / angle_per_class num_class)) < IZR num_class) by lra.
    apply lt_IZR in Hlt. lia.
Qed.

(** The residual is the fractional part of the bin count, moved down by
    one half. *)
Lemma angle_residual_frac :
  angle_residual a num_class
  = shifted_angle a num_class / angle_per_class num_class
    - IZR (angle_class a num_class) - 1 / 2.
Proof.
  unfold angle_residual. fold (angle_per_class num_class).
  pose proof angle_per_class_pos. field. lra.
Qed.

Lemma angle_residual_range : -1 / 2 <= angle_residual a num_class < 1 / 2.
Proof.
  rewrite angle_residual_frac, angle_class_floor.
  destruct (Zfloor_bound (shifted_angle a num_class / angle_per_class num_class)).
  lra.
Qed.

End OneAngle.

(** ** The angle encoder on arrays *)

Section AngleArray.

Lemma zip_with_map {A B C D : Type} (f : B -> C -> D) (g : A -> B)
      (h : A -> C) (l : list A) :
  zip_with f (map g l) (map h l) = map (fun x => f (g x) (h x)) l.
Proof. induction l as [| x l IH]; simpl; [reflexivity | now rewrite IH]. Qed.

(** The asserted condition holds of every normalised array. *)
Lemma assertion_holds (angle : list R) :
  Np.all (Np.logical_and
            (map (fun a => Rgeb a 0) (map (fun a => Np.mod_ a (2 * PI)) angle))
            (map (fun a => Rleb a (2 * PI)) (map (fun a => Np.mod_ a (2 * PI)) angle)))
  = true.
Proof.
  induction angle as [| a angle IH]; simpl; [reflexivity |].
  destruct (mod_range a (2 * PI) two_PI_pos) as [Hlo Hhi].
  rewrite Rgeb_true by lra. rewrite Rleb_true by lra. simpl.
  exact IH.
Qed.

(** With a non-zero [num_class] the encoder returns, and what it returns is
    the elementwise view of every angle. *)
Lemma encode_angle2class_np_elementwise (angle : list R) (num_class : Z) :
  num_class <> 0%Z ->
  encode_angle2class_np angle num_class
  = Ok (map (fun a => angle_class a num_class) angle,
        map (fun a => angle_residual a num_class) angle).
Proof.
  intros Hnc. unfold encode_angle2class_np.
  rewrite assertion_holds. simpl.
  unfold py_div. destruct (Req_dec_T (IZR num_class) 0) as [E | _].
  - apply eq_IZR in E. contradiction.
  - simpl. f_equal. f_equal.
    + rewrite !map_map. reflexivity.
    + rewrite !map_map. rewrite zip_with_map, map_map. reflexivity.
Qed.

Lemma encode_angle2class_np_zero (angle : list R) :
  encode_angle2class_np angle 0 = Raise ZeroDivisionError.
Proof.
  unfold encode_angle2class_np. rewrite assertion_holds. simpl.
  unfold py_div. destruct (Req_dec_T (IZR 0) 0) as [_ | N]; [reflexivity |].
  exfalso. apply N. reflexivity.
Qed.

End AngleArray.

(** ** The specification's statements about the angle encoder *)

Section ConcreteAngles.

Lemma mod_by_floor (x y : R) (k : Z) :
  0 < y -> IZR k * y <= x < (IZR k + 1) * y -> Np.mod_ x y = x - IZR k * y.
Proof.
  intros Hy [Hlo Hhi]. unfold Np.mod_. rewrite (Zfloor_eq k); [reflexivity |].
  split.
  - apply (Rmult_le_reg_r y); [assumption |].
    replace (x / y * y) with x by (field; lra). exact Hlo.
  - apply (Rmult_lt_reg_r y); [assumption |].
    replace (x / y * y) with x by (field; lra). exact Hhi.
Qed.

Lemma astype_int_by_floor (x : R) (k : Z) :
  (0 <= k)%Z -> IZR k <= x < IZR k + 1 -> Np.astype_int x = k.
Proof.
  intros Hk [Hlo Hhi]. apply IZR_le in Hk. simpl in Hk.
  rewrite astype_int_nonneg by lra. apply Zfloor_eq. lra.
Qed.

Lemma shifted_angle_0_4 : shifted_angle 0 4 = PI / 4.
Proof.
  pose proof PI_RGT_0 as Hpi. unfold shifted_angle, angle_per_class.
  rewrite (mod_small 0) by lra.
  replace (0 + 2 * PI / 4 / 2) with (PI / 4) by field.
  apply mod_small. lra.
Qed.

Lemma shifted_angle_PI_4 : shifted_angle PI 4 = 5 * PI / 4.
Proof.
  pose proof PI_RGT_0 as Hpi. unfold shifted_angle, angle_per_class.
  rewrite (mod_small PI) by lra.
  replace (PI + 2 * PI / 4 / 2) with (5 * PI / 4) by field.
  apply mod_small. lra.
Qed.

Lemma shifted_angle_neg_4 : shifted_angle (- (PI / 8)) 4 = PI / 8.
Proof.
  pose proof PI_RGT_0 as Hpi. unfold shifted_angle, angle_per_class.
  rewrite (mod_by_floor (- (PI / 8)) (2 * PI) (-1)) by lra.
  rewrite (mod_by_floor _ (2 * PI) 1) by lra.
  field.
Qed.

Lemma angle_0_4 : angle_class 0 4 = 0%Z /\ angle_residual 0 4 = 0.
Proof.
  pose proof PI_RGT_0 as Hpi.
  assert (Hc : angle_class 0 4 = 0%Z).
  { unfold angle_class. rewrite shifted_angle_0_4. unfold angle_per_class.
    replace (PI / 4 / (2 * PI / 4)) with (1 / 2) by (field; lra).
    apply astype_int_by_floor; [lia | simpl; lra]. }
  split; [exact Hc |].
  unfold angle_residual. rewrite Hc, shifted_angle_0_4.
  unfold angle_per_class. field. lra.
Qed.

Lemma angle_PI_4 : angle_class PI 4 = 2%Z /\ angle_residual PI 4 = 0.
Proof.
  pose proof PI_RGT_0 as Hpi.
  assert (Hc : angle_class PI 4 = 2%Z).
  { unfold angle_class. rewrite shifted_angle_PI_4. unfold angle_per_class.
    replace (5 * PI / 4 / (2 * PI / 4)) with (5 / 2) by (field; lra).
    apply astype_int_by_floor; [lia | simpl; lra]. }
  split; [exact Hc |].
  unfold angle_residual. rewrite Hc, shifted_angle_PI_4.
  unfold angle_per_class. field. lra.
Qed.

Lemma angle_neg_4 :
  angle_class (- (PI / 8)) 4 = 0%Z /\ angle_residual (- (PI / 8)) 4 = - (1 / 4).
Proof.
  pose proof PI_RGT_0 as Hpi.
  assert (Hc : angle_class (- (PI / 8)) 4 = 0%Z).
  { unfold angle_class. rewrite shifted_angle_neg_4. unfold angle_per_class.
    replace (PI / 8 / (2 * PI / 4)) with (1 / 4) by (field; lra).
    apply astype_int_by_floor; [lia | simpl; lra]. }
  split; [exact Hc |].
  unfold angle_residual. rewrite Hc, shifted_angle_neg_4.
  unfold angle_per_class. field. lra.
Qed.

End ConcreteAngles.

(** C1 (what the code does at a failing input).  The residual is not confined
    to [[0, 1]]: for the angle [-π/8] and 4 classes the encoder returns class
    0 and the residual [-1/4], which is negative. *)
Theorem encode_angle2class_np_residual_negative :
  encode_angle2class_np [- (PI / 8)] 4 = Ok ([0%Z], [- (1 / 4)])
  /\ ~ (0 <= - (1 / 4) <= 1).
Proof.
  split; [| lra].
  rewrite encode_angle2class_np_elementwise by lia. simpl.
  destruct angle_neg_4 as [-> ->]. reflexivity.
Qed.

(** C2 (what the code does at the two inputs of the scenario).  For 4 classes
    the angle [0] is encoded as class 0 with residual [0], and the angle [π]
    as class 2 with residual [0]: the class ids are those of the scenario,
    the residuals are [0] and not [0.5]. *)
Theorem encode_angle2class_np_scenario :
  encode_angle2class_np [0] 4 = Ok ([0%Z], [0])
  /\ encode_angle2class_np [PI] 4 = Ok ([2%Z], [0]).
Proof.
  split; rewrite encode_angle2class_np_elementwise by lia; simpl.
  - destruct angle_0_4 as [-> ->]. reflexivity.
  - destruct angle_PI_4 as [-> ->]. reflexivity.
Qed.

(** The range of the class id in exact real arithmetic.  On real numbers, for
    every array of angles and every [num_class >= 1] the encoder returns,
    with one class id per angle, each an integer between [0] and
    [num_class - 1].  (The binary64 code leaves this range within rounding
    of a bin boundary, see the statements on binary64 at the end.) *)
Theorem encode_angle2class_np_class_id_range (angle : list R) (num_class : Z) :
  (1 <= num_class)%Z ->
  exists class_id residual_angle,
    encode_angle2class_np angle num_class = Ok (class_id, residual_angle)
    /\ length class_id = length angle
    /\ Forall (fun c => (0 <= c <= num_class - 1)%Z) class_id.
Proof.
  intros Hnc. eexists _, _. split; [| split].
  - apply encode_angle2class_np_elementwise. lia.
  - apply length_map.
  - apply Forall_map, Forall_forall. intros a _.
    apply angle_class_range, Hnc.
Qed.

Lemma encode_angle2class_np_class_id_range_witness :
  exists class_id residual_angle,
    encode_angle2class_np [1; -3] 12 = Ok (class_id, residual_angle)
    /\ length class_id = length [1; -3]
    /\ Forall (fun c => (0 <= c <= 12 - 1)%Z) class_id.
Proof. apply (encode_angle2class_np_class_id_range [1; -3] 12). lia. Defined.

(** C5, as amended.  Periodicity in exact real arithmetic: on real numbers,
    shifting every angle of the array by [2πk], for an integer [k], changes
    nothing in what the encoder returns (neither the class ids nor the
    residuals, nor the exception when [num_class] is 0).  (In binary64 the
    two encodings can differ within rounding of a bin boundary, see the
    statements on binary64 at the end.) *)
Theorem encode_angle2class_np_periodic (angle : list R) (k num_class : Z) :
  encode_angle2class_np (map (fun theta => theta + 2 * PI * IZR k) angle) num_class
  = encode_angle2class_np angle num_class.
Proof.
  assert (Hnorm : map (fun a => Np.mod_ a (2 * PI))
                      (map (fun theta => theta + 2 * PI * IZR k) angle)
                  = map (fun a => Np.mod_ a (2 * PI)) angle).
  { rewrite map_map. apply map_ext. intros theta.
    replace (theta + 2 * PI * IZR k) with (theta + IZR k * (2 * PI)) by ring.
    apply mod_add_period. pose proof two_PI_pos. lra. }
  unfold encode_angle2class_np. rewrite Hnorm. reflexivity.
Qed.

(** C9.  The assertion never fails: the condition it checks is true of every
    normalised array, the encoder never raises [AssertionError], and for
    every [num_class >= 1] it returns normally. *)
Theorem encode_angle2class_np_assertion_holds (angle : list R) (num_class : Z) :
  (let angle' := map (fun a => Np.mod_ a (2 * PI)) angle in
   Np.all (Np.logical_and (map (fun a => Rgeb a 0) angle')
                          (map (fun a => Rleb a (2 * PI)) angle')) = true)
  /\ encode_angle2class_np angle num_class <> Raise AssertionError
  /\ ((1 <= num_class)%Z ->
      exists class_id residual_angle,
        encode_angle2class_np angle num_class = Ok (class_id, residual_angle)).
Proof.
  split; [apply assertion_holds |]. split.
  - destruct (Z.eq_dec num_class 0) as [-> | Hnc].
    + rewrite encode_angle2class_np_zero. discriminate.
    + rewrite encode_angle2class_np_elementwise by assumption. discriminate.
  - intros Hnc. eexists _, _. apply encode_angle2class_np_elementwise. lia.
Qed.

Lemma encode_angle2class_np_assertion_holds_witness :
  encode_angle2class_np [7; -100] 12 <> Raise AssertionError
  /\ exists class_id residual_angle,
       encode_angle2class_np [7; -100] 12 = Ok (class_id, residual_angle).
Proof.
  destruct (encode_angle2class_np_assertion_holds [7; -100] 12) as [_ [Hne Hok]].
  split; [exact Hne | apply Hok; lia].
Defined.

(** C10.  For every array of angles and every [num_class >= 1] the encoder
    returns, with one residual per angle, each in the half-open interval
    [[-1/2, 1/2)]: the residual is centred on zero. *)
Theorem encode_angle2class_np_residual_centered (angle : list R) (num_class : Z) :
  (1 <= num_class)%Z ->
  exists class_id residual_angle,
    encode_angle2class_np angle num_class = Ok (class_id, residual_angle)
    /\ length residual_angle = length angle
    /\ Forall (fun r => -1 / 2 <= r < 1 / 2) residual_angle.
Proof.
  intros Hnc. eexists _, _. split; [| split].
  - apply encode_angle2class_np_elementwise. lia.
  - apply length_map.
  - apply Forall_map, Forall_forall. intros a _.
    apply angle_residual_range, Hnc.
Qed.

Lemma encode_angle2class_np_residual_centered_witness :
  exists class_id residual_angle,
    encode_angle2class_np [1; -3] 12 = Ok (class_id, residual_angle)
    /\ length residual_angle = length [1; -3]
    /\ Forall (fun r => -1 / 2 <= r < 1 / 2) residual_angle.
Proof. apply (encode_angle2class_np_residual_centered [1; -3] 12). lia. Defined.

(** ** The tensor primitives on tensors given box by box

    Tensors of one shape [[bs, points_num, ...]] are presented as the images
    of one tensor [T] of that shape under maps [g], [h], ...; every primitive
    then computes another image of [T]. *)

Section OverOneShape.
Lemma bind_Ok {A B : Type} (a : A) (k : A -> result B) : bind (Ok a) k = k a.
Proof. reflexivity. Qed.

Lemma map2_map2 {X : Type} {A B : Type} (f : A -> B) (g : X -> A) (T : list (list X)) :
  map (map f) (map (map g) T) = map (map (fun z => f (g z))) T.
Proof. rewrite map_map. apply map_ext. intros r. apply map_map. Qed.

Lemma mapM_map {X : Type} {A B : Type} (f : A -> result B) (g : X -> A) (k : X -> B)
      (l : list X) :
  (forall z, f (g z) = Ok (k z)) -> mapM f (map g l) = Ok (map k l).
Proof.
  intros H. induction l as [| z l IH]; simpl; [reflexivity |].
  rewrite H, IH. reflexivity.
Qed.

Lemma zipM_map {X : Type} {A B C : Type} (f : A -> B -> result C) (g : X -> A)
      (h : X -> B) (k : X -> C) (l : list X) :
  (forall z, f (g z) (h z) = Ok (k z)) ->
  zipM f (map g l) (map h l) = Ok (map k l).
Proof.
  intros H. induction l as [| z l IH]; simpl; [reflexivity |].
  rewrite H, IH. reflexivity.
Qed.

(** On axes of equal length broadcasting is the index-by-index
    combination. *)
Lemma broadcast_same_length {A B C : Type} (f : A -> B -> result C)
      (a : list A) (b : list B) :
  length a = length b -> broadcast f a b = zipM f a b.
Proof.
  destruct a as [| x [| x' a]]; destruct b as [| y [| y' b]]; simpl;
    intros E; try discriminate E; reflexivity.
Qed.

Lemma broadcast_map {X : Type} {A B C : Type} (f : A -> B -> result C) (g : X -> A)
      (h : X -> B) (k : X -> C) (l : list X) :
  (forall z, f (g z) (h z) = Ok (k z)) ->
  broadcast f (map g l) (map h l) = Ok (map k l).
Proof.
  intros H. rewrite broadcast_same_length by (now rewrite !length_map).
  apply zipM_map, H.
Qed.

Lemma zipM_zip_with (f : R -> R -> R) (r s : list R) :
  length r = length s ->
  zipM (fun x y => Ok (f x y)) r s = Ok (zip_with f r s).
Proof.
  revert s. induction r as [| x r IH]; intros [| y s] E; simpl;
    try discriminate E; [reflexivity |].
  rewrite IH by (simpl in E; lia). reflexivity.
Qed.

Lemma elementwise2_map {X : Type} (f : R -> R -> R) (g h : X -> R) (T : list (list X)) :
  elementwise2 f (map (map g) T) (map (map h) T)
  = Ok (map (map (fun z => f (g z) (h z))) T).
Proof.
  unfold elementwise2.
  apply (broadcast_map _ (map g) (map h) (map (fun z => f (g z) (h z)))).
  intros r. apply broadcast_map. reflexivity.
Qed.

Lemma elementwise3_map {X : Type} (f : R -> R -> R) (g h : X -> list R)
      (T : list (list X)) :
  (forall z, length (g z) = length (h z)) ->
  elementwise3 f (map (map g) T) (map (map h) T)
  = Ok (map (map (fun z => zip_with f (g z) (h z))) T).
Proof.
  intros E. unfold elementwise3.
  apply (broadcast_map _ (map g) (map h)
                       (map (fun z => zip_with f (g z) (h z)))).
  intros r. apply broadcast_map. intros z.
  rewrite broadcast_same_length by apply E.
  apply zipM_zip_with, E.
Qed.

Lemma zipM2_map {X : Type} {A B C : Type} (f : A -> B -> C) (g : X -> A) (h : X -> B)
      (T : list (list X)) :
  zipM (zipM (fun a b => Ok (f a b))) (map (map g) T) (map (map h) T)
  = Ok (map (map (fun z => f (g z) (h z))) T).
Proof.
  apply (zipM_map _ (map g) (map h) (map (fun z => f (g z) (h z)))).
  intros r. apply zipM_map. reflexivity.
Qed.

Lemma stack_last_2 {X : Type} (a b : X -> R) (T : list (list X)) :
  stack_last [map (map a) T; map (map b) T]
  = Ok (map (map (fun z => [a z; b z])) T).
Proof.
  unfold stack_last. simpl. rewrite map2_map2.
  apply (zipM2_map (fun row x => row ++ [x]) (fun z => [a z]) b).
Qed.

Lemma stack_last_3 {X : Type} (a b c : X -> R) (T : list (list X)) :
  stack_last [map (map a) T; map (map b) T; map (map c) T]
  = Ok (map (map (fun z => [a z; b z; c z])) T).
Proof.
  unfold stack_last. simpl. rewrite map2_map2.
  rewrite (zipM2_map (fun row x => row ++ [x]) (fun z => [a z]) b). simpl.
  apply (zipM2_map (fun row x => row ++ [x]) (fun z => [a z; b z]) c).
Qed.

Lemma concatenate_2 {X : Type} (g h : X -> list R) (T : list (list X)) :
  NpT.concatenate [map (map g) T; map (map h) T]
  = Ok (map (map (fun z => g z ++ h z)) T).
Proof. unfold NpT.concatenate. simpl. apply (zipM2_map (@app R)). Qed.

Lemma concatenate_3 {X : Type} (g h k : X -> list R) (T : list (list X)) :
  NpT.concatenate [map (map g) T; map (map h) T; map (map k) T]
  = Ok (map (map (fun z => (g z ++ h z) ++ k z)) T).
Proof.
  unfold NpT.concatenate. simpl. rewrite (zipM2_map (@app R)). simpl.
  apply (zipM2_map (@app R) (fun z => g z ++ h z) k).
Qed.

Lemma mapM2_map {X : Type} {A B : Type} (f : A -> result B) (g : X -> A) (k : X -> B)
      (T : list (list X)) :
  (forall z, f (g z) = Ok (k z)) ->
  mapM (mapM f) (map (map g) T) = Ok (map (map k) T).
Proof.
  intros H. apply (mapM_map _ (map g) (map k)).
  intros r. apply mapM_map, H.
Qed.

Lemma unstack3_map {X : Type} (a b c : X -> R) (T : list (list X)) :
  Tf.unstack3 (map (map (fun z => [a z; b z; c z])) T)
  = Ok (map (map a) T, map (map b) T, map (map c) T).
Proof.
  unfold Tf.unstack3.
  rewrite (mapM2_map _ (fun z => [a z; b z; c z]) (fun z => (a z, b z, c z)))
    by reflexivity.
  simpl. rewrite !map2_map2. reflexivity.
Qed.

Lemma split3_map {X : Type} (a b c : X -> R) (T : list (list X)) :
  NpT.split3 (map (map (fun z => [a z; b z; c z])) T)
  = Ok (map (map (fun z => [a z])) T, map (map (fun z => [b z])) T,
        map (map (fun z => [c z])) T).
Proof.
  unfold NpT.split3.
  rewrite (mapM2_map _ (fun z => [a z; b z; c z])
                     (fun z => ([a z], [b z], [c z]))) by reflexivity.
  simpl. rewrite !map2_map2. reflexivity.
Qed.

Lemma tf_index_last_1_map {X : Type} (a b c : X -> R) (T : list (list X)) :
  Tf.index_last_1 (map (map (fun z => [a z; b z; c z])) T)
  = Ok (map (map b) T).
Proof. unfold Tf.index_last_1. apply mapM2_map. reflexivity. Qed.

Lemma np_index_last_1_map {X : Type} (a b c : X -> R) (T : list (list X)) :
  NpT.index_last_1 (map (map (fun z => [a z; b z; c z])) T)
  = Ok (map (map b) T).
Proof. unfold NpT.index_last_1. apply mapM2_map. reflexivity. Qed.

End OverOneShape.

(** ** The encoders on the tensors of a batch of samples *)

Section EncodersOverSamples.
Variable T : list (list sample).

Lemma map2_ext {X Y : Type} (f g : X -> Y) (U : list (list X)) :
  (forall z, f z = g z) -> map (map f) U = map (map g) U.
Proof. intros H. apply map_ext. intros r. apply map_ext, H. Qed.

Lemma encode_log_anchor_over :
  encode_log_anchor (t_gt_ctr T) (t_gt_offset T) (t_anchor_ctr T)
                    (t_anchor_offset T)
  = Ok (map (map log_anchor_ctr_box) T, map (map log_anchor_offset_box) T).
Proof.
  unfold encode_log_anchor, t_gt_ctr, t_gt_offset, t_anchor_ctr,
    t_anchor_offset, row3.
  rewrite !unstack3_map. cbn [bind].
  unfold Tf.stack. rewrite stack_last_2. cbn [bind].
  unfold Tf.norm, Tf.sub, Tf.div, Tf.log.
  rewrite !map2_map2.
  repeat (rewrite elementwise2_map; cbn [bind]).
  rewrite !map2_map2, !stack_last_3. cbn [bind].
  f_equal. f_equal; apply map2_ext; intros [[[[[gx gy] gz] [[gl gh] gw]]
                                              [[ax ay] az]] [[al ah] aw]];
    unfold log_anchor_ctr_box, log_anchor_offset_box; simpl;
    rewrite ?Rplus_0_r; reflexivity.
Qed.

Lemma encode_log_anchor_np_over :
  encode_log_anchor_np (t_gt_ctr T) (t_gt_offset T) (t_anchor_ctr T)
                       (t_anchor_offset T)
  = Ok (map (map log_anchor_ctr_box) T, map (map log_anchor_offset_box) T).
Proof.
  unfold encode_log_anchor_np, t_gt_ctr, t_gt_offset, t_anchor_ctr,
    t_anchor_offset, row3.
  rewrite !split3_map. cbn [bind].
  rewrite concatenate_2. cbn [bind].
  unfold NpT.linalg_norm, NpT.sub, NpT.div, NpT.log.
  rewrite !map2_map2.
  repeat (rewrite elementwise3_map by (intros; reflexivity); cbn [bind]).
  rewrite !map2_map2, !concatenate_3. cbn [bind].
  f_equal. f_equal; apply map2_ext; intros [[[[[gx gy] gz] [[gl gh] gw]]
                                              [[ax ay] az]] [[al ah] aw]];
    unfold log_anchor_ctr_box, log_anchor_offset_box; simpl;
    rewrite ?Rplus_0_r; reflexivity.
Qed.

Lemma encode_dist_anchor_over :
  encode_dist_anchor (t_gt_ctr T) (t_gt_offset T) (t_anchor_ctr T)
                     (t_anchor_offset T)
  = Ok (map (map dist_anchor_ctr_box) T, map (map dist_anchor_offset_box) T).
Proof.
  unfold encode_dist_anchor, t_gt_ctr, t_gt_offset, t_anchor_ctr,
    t_anchor_offset, row3.
  repeat (rewrite elementwise3_map by (intros; reflexivity); cbn [bind]).
  f_equal. f_equal; apply map2_ext; intros [[[[[gx gy] gz] [[gl gh] gw]]
                                              [[ax ay] az]] [[al ah] aw]];
    reflexivity.
Qed.

Lemma encode_dist_anchor_free_over (anchor_offset : option tensor3) :
  encode_dist_anchor_free (t_gt_ctr T) (t_gt_offset T) (t_anchor_ctr T)
                          anchor_offset
  = Ok (map (map anchor_free_ctr_box) T, map (map anchor_free_half_box) T).
Proof.
  unfold encode_dist_anchor_free, t_gt_ctr, t_gt_offset, t_anchor_ctr, row3.
  unfold Tf.div_scalar. rewrite map2_map2. cbn [map].
  rewrite tf_index_last_1_map. cbn [bind].
  unfold Tf.zeros_like, Tf.stack, Tf.sub3. rewrite map2_map2, stack_last_3.
  cbn [bind].
  repeat (rewrite elementwise3_map by (intros; reflexivity); cbn [bind]).
  f_equal. f_equal; apply map2_ext; intros [[[[[gx gy] gz] [[gl gh] gw]]
                                              [[ax ay] az]] [[al ah] aw]];
    reflexivity.
Qed.

Lemma encode_dist_anchor_free_np_over (anchor_offset : option tensor3) :
  encode_dist_anchor_free_np (t_gt_ctr T) (t_gt_offset T) (t_anchor_ctr T)
                             anchor_offset
  = Ok (map (map anchor_free_ctr_box) T, map (map anchor_free_half_box) T).
Proof.
  unfold encode_dist_anchor_free_np, t_gt_ctr, t_gt_offset, t_anchor_ctr,
    row3.
  unfold NpT.div_scalar. rewrite map2_map2. cbn [map].
  rewrite np_index_last_1_map. cbn [bind].
  unfold NpT.zeros_like, NpT.stack, NpT.sub. rewrite map2_map2, stack_last_3.
  cbn [bind].
  repeat (rewrite elementwise3_map by (intros; reflexivity); cbn [bind]).
  f_equal. f_equal; apply map2_ext; intros [[[[[gx gy] gz] [[gl gh] gw]]
                                              [[ax ay] az]] [[al ah] aw]];
    reflexivity.
Qed.

End EncodersOverSamples.

(** ** Tensors of one shape are the tensors of a batch of samples *)

Section Shapes.

Lemma shape2_map {X Y : Type} (f : X -> Y) (bs n : nat) (U : list (list X)) :
  shape2 bs n U -> shape2 bs n (map (map f) U).
Proof.
  intros [Hl Hr]. split.
  - now rewrite length_map.
  - apply Forall_map. eapply Forall_impl; [| exact Hr].
    intros r Hn. now rewrite length_map.
Qed.

Lemma shape3_map {X : Type} (f : X -> list R) (bs n k : nat)
      (U : list (list X)) :
  shape2 bs n U -> (forall z, length (f z) = k) ->
  shape3 bs n k (map (map f) U).
Proof.
  intros HU Hf. split; [apply shape2_map, HU |].
  apply Forall_map, Forall_forall. intros r _.
  apply Forall_map, Forall_forall. intros z _. apply Hf.
Qed.

Lemma row3_of_nth (r : list R) :
  length r = 3%nat -> row3 (nth 0 r 0, nth 1 r 0, nth 2 r 0) = r.
Proof.
  destruct r as [| a [| b [| c [| d r]]]]; simpl; intros E;
    try discriminate E; reflexivity.
Qed.

(** A tensor whose last axis has three entries is a tensor of triples. *)
Lemma rows_of_shape3 (bs n : nat) (t : tensor3) :
  shape3 bs n 3 t ->
  exists V : list (list vec3), shape2 bs n V /\ t = map (map row3) V.
Proof.
  intros [Hs Hk].
  exists (map (map (fun r => (nth 0 r 0, nth 1 r 0, nth 2 r 0))) t).
  split; [apply shape2_map, Hs |].
  rewrite map2_map2. clear Hs.
  induction Hk as [| r t Hr _ IH]; simpl; [reflexivity |].
  rewrite <- IH. f_equal.
  induction Hr as [| x r Hx _ IHr]; simpl; [reflexivity |].
  rewrite <- IHr, row3_of_nth by exact Hx. reflexivity.
Qed.

Lemma zip_rows {X Y : Type} (a : list X) (b : list Y) :
  length a = length b ->
  exists t : list (X * Y),
    length t = length a /\ a = map fst t /\ b = map snd t.
Proof.
  revert b. induction a as [| x a IH]; intros [| y b] E; simpl in E;
    try discriminate E.
  - exists []. repeat split.
  - destruct (IH b) as (t & Hl & Ha & Hb); [lia |].
    exists ((x, y) :: t). simpl. rewrite Hl, <- Ha, <- Hb. repeat split.
Qed.

(** Two tensors of one shape are the two projections of a tensor of
    pairs. *)
Lemma zip_shape2 {X Y : Type} (bs n : nat) (A : list (list X))
      (B : list (list Y)) :
  shape2 bs n A -> shape2 bs n B ->
  exists T : list (list (X * Y)),
    shape2 bs n T /\ A = map (map fst) T /\ B = map (map snd) T.
Proof.
  revert bs B. induction A as [| a A IH]; intros bs [| b B] [HlA HrA] [HlB HrB];
    simpl in HlA, HlB; try lia.
  - exists []. repeat split; [exact HlA | constructor].
  - inversion HrA as [| ? ? Ha HrA']; subst.
    inversion HrB as [| ? ? Hb HrB']; subst.
    destruct (zip_rows a b) as (t & Hl & Hta & Htb); [lia |].
    destruct (IH (length A) B) as (T & [HlT HrT] & HTA & HTB).
    + split; [reflexivity | exact HrA'].
    + split; [lia | exact HrB'].
    + exists (t :: T). simpl. rewrite <- Hta, <- Htb, <- HTA, <- HTB.
      repeat split.
      * simpl. now rewrite HlT.
      * constructor; [exact Hl | exact HrT].
Qed.

(** Four tensors of shape [[bs, n, 3]] are the four tensors of a batch of
    samples. *)
Lemma samples_of_tensors (bs n : nat)
      (gt_ctr gt_offset anchor_ctr anchor_offset : tensor3) :
  shape3 bs n 3 gt_ctr -> shape3 bs n 3 gt_offset ->
  shape3 bs n 3 anchor_ctr -> shape3 bs n 3 anchor_offset ->
  exists T : list (list sample),
    shape2 bs n T
    /\ gt_ctr = t_gt_ctr T /\ gt_offset = t_gt_offset T
    /\ anchor_ctr = t_anchor_ctr T /\ anchor_offset = t_anchor_offset T.
Proof.
  intros H1 H2 H3 H4.
  destruct (rows_of_shape3 _ _ _ H1) as (V1 & S1 & ->).
  destruct (rows_of_shape3 _ _ _ H2) as (V2 & S2 & ->).
  destruct (rows_of_shape3 _ _ _ H3) as (V3 & S3 & ->).
  destruct (rows_of_shape3 _ _ _ H4) as (V4 & S4 & ->).
  destruct (zip_shape2 _ _ _ _ S1 S2) as (T12 & S12 & -> & ->).
  destruct (zip_shape2 _ _ _ _ S12 S3) as (T123 & S123 & -> & ->).
  destruct (zip_shape2 _ _ _ _ S123 S4) as (T & ST & -> & ->).
  exists T. split; [exact ST |].
  unfold t_gt_ctr, t_gt_offset, t_anchor_ctr, t_anchor_offset.
  rewrite !map2_map2. repeat split.
Qed.

Lemma nth_row_length {X : Type} (bs n i : nat) (U : list (list X)) :
  shape2 bs n U -> (i < bs)%nat -> length (nth i U []) = n.
Proof.
  intros [Hl Hr] Hi. rewrite Forall_forall in Hr.
  apply Hr, nth_In. lia.
Qed.

(** Indexing the tensor of a batch of samples. *)
Lemma at3_map (f : sample -> list R) (bs n i j k : nat)
      (T : list (list sample)) :
  shape2 bs n T -> (i < bs)%nat -> (j < n)%nat ->
  at3 (map (map f) T) i j k = nth k (f (sample_at T i j)) 0.
Proof.
  intros HT Hi Hj. unfold at3, sample_at.
  change (nth i (map (map f) T) []) with (nth i (map (map f) T) (map f [])).
  rewrite map_nth.
  rewrite (nth_indep _ [] (f sample0)).
  - rewrite map_nth. reflexivity.
  - rewrite length_map, (nth_row_length bs n) by assumption. exact Hj.
Qed.

Lemma Forall_nth_in {X : Type} (P : X -> Prop) (l : list X) (i : nat) (d : X) :
  Forall P l -> (i < length l)%nat -> P (nth i l d).
Proof. intros H Hi. rewrite Forall_forall in H. apply H, nth_In, Hi. Qed.

(** An element of a tensor at an index inside its shape has every property
    that all elements have. *)
Lemma at3_Forall (P : R -> Prop) (bs n k i j c : nat) (t : tensor3) :
  shape3 bs n k t -> Forall (Forall (Forall P)) t ->
  (i < bs)%nat -> (j < n)%nat -> (c < k)%nat -> P (at3 t i j c).
Proof.
  intros [[Hl Hn] Hk] HP Hi Hj Hc. unfold at3.
  assert (Hi' : (i < length t)%nat) by lia.
  pose proof (Forall_nth_in _ _ i [] Hn Hi') as Hni. simpl in Hni.
  pose proof (Forall_nth_in _ _ i [] Hk Hi') as Hki.
  pose proof (Forall_nth_in _ _ i [] HP Hi') as HPi.
  assert (Hj' : (j < length (nth i t []))%nat) by lia.
  pose proof (Forall_nth_in _ _ j [] Hki Hj') as Hkj. simpl in Hkj.
  pose proof (Forall_nth_in _ _ j [] HPi Hj') as HPj.
  apply Forall_nth_in; [exact HPj | lia].
Qed.

End Shapes.

(** ** The specification's statements about the box encoders *)

Ltac over_samples T HT :=
  match goal with
  | H1 : shape3 ?bs ?n 3 ?a, H2 : shape3 ?bs ?n 3 ?b,
    H3 : shape3 ?bs ?n 3 ?c, H4 : shape3 ?bs ?n 3 ?d |- _ =>
      destruct (samples_of_tensors bs n a b c d H1 H2 H3 H4)
        as (T & HT & -> & -> & -> & ->)
  end.

Ltac shape_of_literal :=
  unfold shape3, shape2, positive3, nonzero3; repeat split;
  repeat constructor; try lra.

Lemma box_lengths (z : sample) :
  length (log_anchor_ctr_box z) = 3%nat
  /\ length (log_anchor_offset_box z) = 3%nat
  /\ length (dist_anchor_ctr_box z) = 3%nat
  /\ length (dist_anchor_offset_box z) = 3%nat
  /\ length (anchor_free_ctr_box z) = 3%nat
  /\ length (anchor_free_half_box z) = 3%nat.
Proof.
  destruct z as [[[[[gx gy] gz] [[gl gh] gw]] [[ax ay] az]] [[al ah] aw]].
  repeat split.
Qed.

(** C6.  On four tensors of shape [[bs, n, 3]] with positive ground-truth and
    anchor dimensions, both log-anchor encoders return the same pair of
    tensors of that shape, and for every box [(i, j)]: the planar diagonal
    [anchor_d = sqrt (anchor_l^2 + anchor_w^2)] is positive, the encoded
    center is [((gt_x - anchor_x) / anchor_d, (gt_y - anchor_y) / anchor_h,
    (gt_z - anchor_z) / anchor_d)], and the encoded offset is
    [(ln (gt_l / anchor_l), ln (gt_h / anchor_h), ln (gt_w / anchor_w))],
    each logarithm being taken of a positive ratio. *)
Theorem encode_log_anchor_formula (bs n : nat)
        (gt_ctr gt_offset anchor_ctr anchor_offset : tensor3) :
  shape3 bs n 3 gt_ctr -> shape3 bs n 3 gt_offset ->
  shape3 bs n 3 anchor_ctr -> shape3 bs n 3 anchor_offset ->
  positive3 gt_offset -> positive3 anchor_offset ->
  exists encoded_ctr encoded_offset,
    encode_log_anchor_np gt_ctr gt_offset anchor_ctr anchor_offset
    = Ok (encoded_ctr, encoded_offset)
    /\ encode_log_anchor gt_ctr gt_offset anchor_ctr anchor_offset
       = Ok (encoded_ctr, encoded_offset)
    /\ shape3 bs n 3 encoded_ctr /\ shape3 bs n 3 encoded_offset
    /\ forall i j, (i < bs)%nat -> (j < n)%nat ->
         let anchor_d := sqrt (at3 anchor_offset i j 0 ^ 2
                               + at3 anchor_offset i j 2 ^ 2) in
         0 < anchor_d
         /\ at3 encoded_ctr i j 0
            = (at3 gt_ctr i j 0 - at3 anchor_ctr i j 0) / anchor_d
         /\ at3 encoded_ctr i j 1
            = (at3 gt_ctr i j 1 - at3 anchor_ctr i j 1) / at3 anchor_offset i j 1
         /\ at3 encoded_ctr i j 2
            = (at3 gt_ctr i j 2 - at3 anchor_ctr i j 2) / anchor_d
         /\ forall c, (c < 3)%nat ->
              0 < at3 gt_offset i j c / at3 anchor_offset i j c
              /\ at3 encoded_offset i j c
                 = ln (at3 gt_offset i j c / at3 anchor_offset i j c).
Proof.
  intros H1 H2 H3 H4 Hgt Han.
  assert (Pgt : forall i j c, (i < bs)%nat -> (j < n)%nat -> (c < 3)%nat ->
                              0 < at3 gt_offset i j c)
    by (intros; now apply (at3_Forall _ bs n 3)).
  assert (Pan : forall i j c, (i < bs)%nat -> (j < n)%nat -> (c < 3)%nat ->
                              0 < at3 anchor_offset i j c)
    by (intros; now apply (at3_Forall _ bs n 3)).
  clear Hgt Han. over_samples T HT.
  exists (map (map log_anchor_ctr_box) T), (map (map log_anchor_offset_box) T).
  split; [apply encode_log_anchor_np_over |].
  split; [apply encode_log_anchor_over |].
  split; [apply shape3_map; [exact HT | apply box_lengths] |].
  split; [apply shape3_map; [exact HT | apply box_lengths] |].
  intros i j Hi Hj.
  assert (E : forall f c, at3 (map (map f) T) i j c
                          = nth c (f (sample_at T i j)) 0)
    by (intros; now apply (at3_map _ bs n)).
  assert (Pg : forall c, (c < 3)%nat ->
                 0 < nth c (row3 (s_gt_offset (sample_at T i j))) 0)
    by (intros c Hc; rewrite <- (E (fun z => row3 (s_gt_offset z)));
        now apply Pgt).
  assert (Pa : forall c, (c < 3)%nat ->
                 0 < nth c (row3 (s_anchor_offset (sample_at T i j))) 0)
    by (intros c Hc; rewrite <- (E (fun z => row3 (s_anchor_offset z)));
        now apply Pan).
  clear Pgt Pan.
  unfold t_gt_ctr, t_gt_offset, t_anchor_ctr, t_anchor_offset.
  rewrite <- !Rsqr_pow2. unfold Rsqr.
  assert (Pa0 := Pa 0%nat ltac:(lia)). assert (Pa2 := Pa 2%nat ltac:(lia)).
  assert (Q : forall c, (c < 3)%nat ->
                0 < nth c (row3 (s_gt_offset (sample_at T i j))) 0
                    / nth c (row3 (s_anchor_offset (sample_at T i j))) 0)
    by (intros c Hc; apply Rdiv_lt_0_compat; [apply Pg | apply Pa]; exact Hc).
  clear Pg Pa.
  cbv zeta. rewrite !E.
  split; [| split; [| split; [| split]]];
    try (intros c Hc; rewrite !E; split; [apply Q, Hc |]);
    revert Pa0 Pa2;
    destruct (sample_at T i j)
      as [[[[[gx gy] gz] [[gl gh] gw]] [[ax ay] az]] [[al ah] aw]];
    cbn; intros Pa0 Pa2.
  - apply sqrt_lt_R0; nra.
  - reflexivity.
  - reflexivity.
  - reflexivity.
  - destruct c as [| [| [| c]]]; [reflexivity | reflexivity | reflexivity | lia].
Qed.

Lemma encode_log_anchor_formula_witness :
  exists encoded_ctr encoded_offset,
    encode_log_anchor_np [[[1; 2; 3]]] [[[2; 4; 6]]] [[[0; 0; 0]]] [[[3; 2; 4]]]
    = Ok (encoded_ctr, encoded_offset)
    /\ encode_log_anchor [[[1; 2; 3]]] [[[2; 4; 6]]] [[[0; 0; 0]]] [[[3; 2; 4]]]
       = Ok (encoded_ctr, encoded_offset)
    /\ at3 encoded_ctr 0 0 1 = (2 - 0) / 2
    /\ at3 encoded_offset 0 0 0 = ln (2 / 3).
Proof.
  destruct (encode_log_anchor_formula 1 1
              [[[1; 2; 3]]] [[[2; 4; 6]]] [[[0; 0; 0]]] [[[3; 2; 4]]]
              ltac:(shape_of_literal) ltac:(shape_of_literal)
              ltac:(shape_of_literal) ltac:(shape_of_literal)
              ltac:(shape_of_literal) ltac:(shape_of_literal))
    as (ec & eo & Hnp & Htf & _ & _ & H).
  exists ec, eo.
  destruct (H 0%nat 0%nat ltac:(lia) ltac:(lia)) as (_ & _ & Hy & _ & Ho).
  destruct (Ho 0%nat ltac:(lia)) as [_ Hl].
  repeat split; assumption.
Defined.

(** C7.  On tensors of shape [[bs, n, 3]] both anchor-free encoders return,
    whatever [anchor_offset] is (absent or any tensor), the same pair of
    tensors of that shape: the second is [gt_offset / 2] entry by entry, and
    the first is [gt_ctr - (0, gt_offset_y / 2, 0) - anchor_ctr] box by
    box. *)
Theorem encode_dist_anchor_free_formula (bs n : nat)
        (gt_ctr gt_offset anchor_ctr : tensor3) :
  shape3 bs n 3 gt_ctr -> shape3 bs n 3 gt_offset ->
  shape3 bs n 3 anchor_ctr ->
  exists encoded_ctr target_ctr_half,
    (forall anchor_offset : option tensor3,
        encode_dist_anchor_free_np gt_ctr gt_offset anchor_ctr anchor_offset
        = Ok (encoded_ctr, target_ctr_half)
        /\ encode_dist_anchor_free gt_ctr gt_offset anchor_ctr anchor_offset
           = Ok (encoded_ctr, target_ctr_half))
    /\ shape3 bs n 3 encoded_ctr /\ shape3 bs n 3 target_ctr_half
    /\ forall i j, (i < bs)%nat -> (j < n)%nat ->
         (forall c, (c < 3)%nat ->
            at3 target_ctr_half i j c = at3 gt_offset i j c / 2)
         /\ at3 encoded_ctr i j 0
            = at3 gt_ctr i j 0 - 0 - at3 anchor_ctr i j 0
         /\ at3 encoded_ctr i j 1
            = at3 gt_ctr i j 1 - at3 gt_offset i j 1 / 2 - at3 anchor_ctr i j 1
         /\ at3 encoded_ctr i j 2
            = at3 gt_ctr i j 2 - 0 - at3 anchor_ctr i j 2.
Proof.
  intros H1 H2 H3.
  destruct (samples_of_tensors bs n gt_ctr gt_offset anchor_ctr gt_offset
                               H1 H2 H3 H2) as (T & HT & E1 & E2 & E3 & _).
  subst gt_ctr gt_offset anchor_ctr.
  exists (map (map anchor_free_ctr_box) T), (map (map anchor_free_half_box) T).
  split; [intros ao; split;
          [apply encode_dist_anchor_free_np_over
          | apply encode_dist_anchor_free_over] |].
  split; [apply shape3_map; [exact HT | apply box_lengths] |].
  split; [apply shape3_map; [exact HT | apply box_lengths] |].
  intros i j Hi Hj.
  assert (E : forall f c, at3 (map (map f) T) i j c
                          = nth c (f (sample_at T i j)) 0)
    by (intros; now apply (at3_map _ bs n)).
  unfold t_gt_ctr, t_gt_offset, t_anchor_ctr. rewrite !E.
  split; [| split; [| split]]; try (intros c Hc; rewrite !E);
    destruct (sample_at T i j)
      as [[[[[gx gy] gz] [[gl gh] gw]] [[ax ay] az]] [[al ah] aw]];
    cbn; try reflexivity.
  destruct c as [| [| [| c]]]; [reflexivity | reflexivity | reflexivity | lia].
Qed.

Lemma encode_dist_anchor_free_formula_witness :
  exists encoded_ctr target_ctr_half,
    encode_dist_anchor_free_np [[[1; 2; 3]]] [[[2; 4; 6]]] [[[0; 0; 0]]] None
    = Ok (encoded_ctr, target_ctr_half)
    /\ encode_dist_anchor_free [[[1; 2; 3]]] [[[2; 4; 6]]] [[[0; 0; 0]]]
                               (Some [[[5; 5; 5]]])
       = Ok (encoded_ctr, target_ctr_half)
    /\ at3 target_ctr_half 0 0 2 = 6 / 2
    /\ at3 encoded_ctr 0 0 1 = 2 - 4 / 2 - 0.
Proof.
  destruct (encode_dist_anchor_free_formula 1 1
              [[[1; 2; 3]]] [[[2; 4; 6]]] [[[0; 0; 0]]]
              ltac:(shape_of_literal) ltac:(shape_of_literal)
              ltac:(shape_of_literal))
    as (ec & half & Hrun & _ & _ & H).
  exists ec, half.
  destruct (H 0%nat 0%nat ltac:(lia) ltac:(lia)) as (Hh & _ & Hy & _).
  repeat split.
  - apply (Hrun None).
  - apply (Hrun (Some [[[5; 5; 5]]])).
  - apply (Hh 2%nat). lia.
  - exact Hy.
Defined.

(** C8.  On four tensors of shape [[bs, n, 3]] with non-zero anchor
    dimensions the distance-anchor encoder returns a pair of tensors of that
    shape with, entry by entry, [encoded_ctr = gt_ctr - anchor_ctr] and
    [encoded_offset = (gt_offset - anchor_offset) / anchor_offset], every
    divisor being non-zero; when the ground truth equals the anchor, every
    entry of both outputs is zero. *)
Theorem encode_dist_anchor_formula (bs n : nat)
        (gt_ctr gt_offset anchor_ctr anchor_offset : tensor3) :
  shape3 bs n 3 gt_ctr -> shape3 bs n 3 gt_offset ->
  shape3 bs n 3 anchor_ctr -> shape3 bs n 3 anchor_offset ->
  nonzero3 anchor_offset ->
  exists encoded_ctr encoded_offset,
    encode_dist_anchor gt_ctr gt_offset anchor_ctr anchor_offset
    = Ok (encoded_ctr, encoded_offset)
    /\ shape3 bs n 3 encoded_ctr /\ shape3 bs n 3 encoded_offset
    /\ (forall i j c, (i < bs)%nat -> (j < n)%nat -> (c < 3)%nat ->
          at3 anchor_offset i j c <> 0
          /\ at3 encoded_ctr i j c = at3 gt_ctr i j c - at3 anchor_ctr i j c
          /\ at3 encoded_offset i j c
             = (at3 gt_offset i j c - at3 anchor_offset i j c)
               / at3 anchor_offset i j c)
    /\ (gt_ctr = anchor_ctr -> gt_offset = anchor_offset ->
        forall i j c, (i < bs)%nat -> (j < n)%nat -> (c < 3)%nat ->
          at3 encoded_ctr i j c = 0 /\ at3 encoded_offset i j c = 0).
Proof.
  intros H1 H2 H3 H4 Hnz.
  assert (Pnz : forall i j c, (i < bs)%nat -> (j < n)%nat -> (c < 3)%nat ->
                              at3 anchor_offset i j c <> 0)
    by (intros; now apply (at3_Forall (fun x => x <> 0) bs n 3)).
  clear Hnz. over_samples T HT.
  exists (map (map dist_anchor_ctr_box) T), (map (map dist_anchor_offset_box) T).
  split; [apply encode_dist_anchor_over |].
  split; [apply shape3_map; [exact HT | apply box_lengths] |].
  split; [apply shape3_map; [exact HT | apply box_lengths] |].
  assert (F : forall i j c, (i < bs)%nat -> (j < n)%nat -> (c < 3)%nat ->
          at3 (t_anchor_offset T) i j c <> 0
          /\ at3 (map (map dist_anchor_ctr_box) T) i j c
             = at3 (t_gt_ctr T) i j c - at3 (t_anchor_ctr T) i j c
          /\ at3 (map (map dist_anchor_offset_box) T) i j c
             = (at3 (t_gt_offset T) i j c - at3 (t_anchor_offset T) i j c)
               / at3 (t_anchor_offset T) i j c).
  { intros i j c Hi Hj Hc. split; [now apply Pnz |].
    unfold t_gt_ctr, t_gt_offset, t_anchor_ctr, t_anchor_offset.
    rewrite !(at3_map _ bs n) by assumption.
    destruct (sample_at T i j)
      as [[[[[gx gy] gz] [[gl gh] gw]] [[ax ay] az]] [[al ah] aw]].
    destruct c as [| [| [| c]]]; [| | | lia]; split; reflexivity. }
  split; [exact F |].
  intros Ec Eo i j c Hi Hj Hc.
  destruct (F i j c Hi Hj Hc) as (Hd & -> & ->).
  rewrite Ec, Eo. split; [ring | field; exact Hd].
Qed.

Lemma encode_dist_anchor_formula_witness :
  exists encoded_ctr encoded_offset,
    encode_dist_anchor [[[1; 2; 3]]] [[[2; 4; 6]]] [[[0; 0; 0]]] [[[1; 2; 3]]]
    = Ok (encoded_ctr, encoded_offset)
    /\ at3 encoded_ctr 0 0 2 = 3 - 0
    /\ at3 encoded_offset 0 0 1 = (4 - 2) / 2.
Proof.
  destruct (encode_dist_anchor_formula 1 1
              [[[1; 2; 3]]] [[[2; 4; 6]]] [[[0; 0; 0]]] [[[1; 2; 3]]]
              ltac:(shape_of_literal) ltac:(shape_of_literal)
              ltac:(shape_of_literal) ltac:(shape_of_literal)
              ltac:(shape_of_literal))
    as (ec & eo & Hrun & _ & _ & H & _).
  exists ec, eo.
  destruct (H 0%nat 0%nat 2%nat ltac:(lia) ltac:(lia) ltac:(lia)) as (_ & Hc & _).
  destruct (H 0%nat 0%nat 1%nat ltac:(lia) ltac:(lia) ltac:(lia)) as (_ & _ & Ho).
  repeat split; assumption.
Defined.

(** C3.  On tensors of shape [[bs, n, 3]] the graph and the eager
    implementation return the same value: with positive ground-truth and
    anchor dimensions [encode_log_anchor] returns what [encode_log_anchor_np]
    returns, and [encode_dist_anchor_free] returns what
    [encode_dist_anchor_free_np] returns, whatever is passed for the
    [anchor_offset] that neither of the two uses. *)
Theorem backends_agree (bs n : nat) (gt_ctr gt_offset anchor_ctr : tensor3) :
  shape3 bs n 3 gt_ctr -> shape3 bs n 3 gt_offset ->
  shape3 bs n 3 anchor_ctr ->
  (forall anchor_offset : tensor3,
      shape3 bs n 3 anchor_offset ->
      positive3 gt_offset -> positive3 anchor_offset ->
      exists out,
        encode_log_anchor gt_ctr gt_offset anchor_ctr anchor_offset = Ok out
        /\ encode_log_anchor_np gt_ctr gt_offset anchor_ctr anchor_offset
           = Ok out)
  /\ (forall anchor_offset : option tensor3,
         exists out,
           encode_dist_anchor_free gt_ctr gt_offset anchor_ctr anchor_offset
           = Ok out
           /\ encode_dist_anchor_free_np gt_ctr gt_offset anchor_ctr
                                         anchor_offset = Ok out).
Proof.
  intros H1 H2 H3. split.
  - intros anchor_offset H4 _ _. over_samples T HT.
    eexists. split;
      [apply encode_log_anchor_over | apply encode_log_anchor_np_over].
  - intros unused.
    destruct (samples_of_tensors bs n gt_ctr gt_offset anchor_ctr gt_offset
                                 H1 H2 H3 H2) as (T & HT & E1 & E2 & E3 & _).
    subst gt_ctr gt_offset anchor_ctr.
    eexists. split;
      [apply encode_dist_anchor_free_over
      | apply encode_dist_anchor_free_np_over].
Qed.

Lemma backends_agree_witness :
  (exists out,
      encode_log_anchor [[[1; 2; 3]]] [[[2; 4; 6]]] [[[0; 0; 0]]] [[[3; 2; 4]]]
      = Ok out
      /\ encode_log_anchor_np [[[1; 2; 3]]] [[[2; 4; 6]]] [[[0; 0; 0]]]
                              [[[3; 2; 4]]] = Ok out)
  /\ exists out,
       encode_dist_anchor_free [[[1; 2; 3]]] [[[2; 4; 6]]] [[[0; 0; 0]]] None
       = Ok out
       /\ encode_dist_anchor_free_np [[[1; 2; 3]]] [[[2; 4; 6]]] [[[0; 0; 0]]]
                                     None = Ok out.
Proof.
  destruct (backends_agree 1 1 [[[1; 2; 3]]] [[[2; 4; 6]]] [[[0; 0; 0]]]
              ltac:(shape_of_literal) ltac:(shape_of_literal)
              ltac:(shape_of_literal))
    as [Hlog Hfree].
  split.
  - apply (Hlog [[[3; 2; 4]]]); shape_of_literal.
  - apply Hfree.
Defined.

(** * Further properties of the encoders *)

(** ** The angle encoder: bins, decoding, rotation by one bin *)

Section AngleBins.
Variable num_class : Z.
Hypothesis Hnc : (1 <= num_class)%Z.

(** The two normalisations collapse into one. *)
Lemma shifted_angle_once (a : R) :
  shifted_angle a num_class
  = Np.mod_ (a + angle_per_class num_class / 2) (2 * PI).
Proof.
  unfold shifted_angle. unfold Np.mod_ at 2.
  replace (a - IZR (Zfloor (a / (2 * PI))) * (2 * PI)
           + angle_per_class num_class / 2)
    with (a + angle_per_class num_class / 2
          + IZR (- Zfloor (a / (2 * PI))) * (2 * PI))
    by (rewrite opp_IZR; ring).
  apply mod_add_period. pose proof two_PI_pos. lra.
Qed.

Lemma bins_fill_circle : IZR num_class * angle_per_class num_class = 2 * PI.
Proof.
  unfold angle_per_class. pose proof (IZR_num_class_pos num_class Hnc).
  field. lra.
Qed.

(** An angle at distance [d] from the centre of bin [k], with
    [-width/2 <= d < width/2], has class [k] and residual [d / width]. *)
Lemma angle_in_bin (k : Z) (d : R) :
  (0 <= k < num_class)%Z ->
  - (angle_per_class num_class / 2) <= d < angle_per_class num_class / 2 ->
  angle_class (IZR k * angle_per_class num_class + d) num_class = k
  /\ angle_residual (IZR k * angle_per_class num_class + d) num_class
     = d / angle_per_class num_class.
Proof.
  intros [Hk0 Hk1] [Hd0 Hd1].
  pose proof (angle_per_class_pos num_class Hnc) as Hw.
  pose proof bins_fill_circle as Hfill.
  assert (Hk0' : 0 <= IZR k) by (apply IZR_le in Hk0; exact Hk0).
  assert (Hk1' : IZR k + 1 <= IZR num_class)
    by (rewrite <- plus_IZR; apply IZR_le; lia).
  set (w := angle_per_class num_class) in *.
  assert (Hs : shifted_angle (IZR k * w + d) num_class
               = IZR k * w + d + w / 2).
  { rewrite shifted_angle_once. fold w. apply mod_small. split; nra. }
  assert (Hc : angle_class (IZR k * w + d) num_class = k).
  { unfold angle_class. rewrite Hs. fold w.
    apply astype_int_by_floor; [exact Hk0 |]. split.
    - apply (Rmult_le_reg_r w); [exact Hw |].
      replace ((IZR k * w + d + w / 2) / w * w) with (IZR k * w + d + w / 2)
        by (field; lra).
      lra.
    - apply (Rmult_lt_reg_r w); [exact Hw |].
      replace ((IZR k * w + d + w / 2) / w * w) with (IZR k * w + d + w / 2)
        by (field; lra).
      lra. }
  split; [exact Hc |].
  unfold angle_residual. rewrite Hc, Hs. fold (angle_per_class num_class).
  fold w. field. lra.
Qed.

(** Class and residual give the normalised angle back. *)
Lemma angle_decode (a : R) :
  Np.mod_ (IZR (angle_class a num_class) * angle_per_class num_class
           + angle_residual a num_class * angle_per_class num_class) (2 * PI)
  = Np.mod_ a (2 * PI).
Proof.
  pose proof (angle_per_class_pos num_class Hnc) as Hw.
  unfold angle_residual. fold (angle_per_class num_class).
  rewrite shifted_angle_once.
  set (w := angle_per_class num_class) in *.
  set (c := angle_class a num_class).
  unfold Np.mod_ at 2.
  set (m := Zfloor ((a + w / 2) / (2 * PI))).
  replace (IZR c * w
           + (a + w / 2 - IZR m * (2 * PI) - (IZR c * w + w / 2)) / w * w)
    with (a + IZR (- m) * (2 * PI)) by (rewrite opp_IZR; field; lra).
  apply mod_add_period. pose proof two_PI_pos. lra.
Qed.

(** Turning an angle by one bin moves it to the next class, cyclically, and
    keeps its residual. *)
Lemma angle_next_bin (a : R) :
  angle_class (a + angle_per_class num_class) num_class
  = ((angle_class a num_class + 1) mod num_class)%Z
  /\ angle_residual (a + angle_per_class num_class) num_class
     = angle_residual a num_class.
Proof.
  pose proof (angle_per_class_pos num_class Hnc) as Hw.
  pose proof bins_fill_circle as Hfill.
  pose proof (angle_class_range a num_class Hnc) as Hc.
  pose proof (angle_residual_range a num_class Hnc) as Hr.
  pose proof (angle_decode a) as Hdec.
  set (c := angle_class a num_class) in *.
  set (r := angle_residual a num_class) in *.
  set (w := angle_per_class num_class) in *.
  (* [a + w] differs by whole turns from the centre of the next bin plus
     [r * w]. *)
  assert (Hper : exists m : Z,
             a + w = IZR ((c + 1) mod num_class) * w + r * w + IZR m * (2 * PI)).
  { unfold Np.mod_ in Hdec.
    set (m1 := Zfloor ((IZR c * w + r * w) / (2 * PI))) in Hdec.
    set (m2 := Zfloor (a / (2 * PI))) in Hdec.
    destruct (Z.eq_dec (c + 1) num_class) as [E | N].
    - exists (m2 - m1 + 1)%Z. rewrite E, Z.mod_same by lia.
      rewrite plus_IZR, minus_IZR. simpl.
      assert (Ec : IZR c + 1 = IZR num_class)
        by (rewrite <- E, plus_IZR; reflexivity).
      nra.
    - exists (m2 - m1)%Z. rewrite Z.mod_small by lia.
      rewrite plus_IZR, minus_IZR. simpl. nra. }
  destruct Hper as [m Hm].
  assert (Hk : (0 <= (c + 1) mod num_class < num_class)%Z)
    by (apply Z.mod_pos_bound; lia).
  assert (Hd : - (w / 2) <= r * w < w / 2) by (split; nra).
  destruct (angle_in_bin ((c + 1) mod num_class) (r * w) Hk Hd) as [Hc' Hr'].
  fold w in Hc', Hr'.
  assert (Hshift : shifted_angle (a + w) num_class
                   = shifted_angle (IZR ((c + 1) mod num_class) * w + r * w)
                                   num_class).
  { rewrite !shifted_angle_once. fold w. rewrite Hm.
    replace (IZR ((c + 1) mod num_class) * w + r * w + IZR m * (2 * PI) + w / 2)
      with (IZR ((c + 1) mod num_class) * w + r * w + w / 2 + IZR m * (2 * PI))
      by ring.
    apply mod_add_period. pose proof two_PI_pos. lra. }
  assert (Hcls : angle_class (a + w) num_class = ((c + 1) mod num_class)%Z).
  { rewrite <- Hc'. unfold angle_class. rewrite Hshift. reflexivity. }
  split; [exact Hcls |].
  transitivity (r * w / w); [| field; lra].
  rewrite <- Hr'. unfold angle_residual. rewrite Hcls, Hc', Hshift. reflexivity.
Qed.

End AngleBins.

(** With no class at all the bin width cannot be computed: whatever the
    angles are (also for the empty array), the assertion passes and the
    division by [float(num_class)] raises [ZeroDivisionError]. *)
Theorem encode_angle2class_np_no_class (angle : list R) :
  encode_angle2class_np angle 0 = Raise ZeroDivisionError.
Proof. apply encode_angle2class_np_zero. Qed.

(** The encoder, bin by bin, in exact real arithmetic: on real numbers, for
    [num_class >= 1], every angle written as [k * width + d], with [k] a
    class in [{0..num_class-1}], [width = 2π / num_class] and [-width/2 <= d
    < width/2], is encoded as class [k] with residual [d / width].  (In
    binary64 an angle within rounding of a bin boundary can fall into the
    neighbouring class.) *)
Theorem encode_angle2class_np_bins (kds : list (Z * R)) (num_class : Z) :
  (1 <= num_class)%Z ->
  Forall (fun kd =>
            (0 <= fst kd < num_class)%Z
            /\ - (angle_per_class num_class / 2) <= snd kd
               < angle_per_class num_class / 2) kds ->
  encode_angle2class_np
    (map (fun kd => IZR (fst kd) * angle_per_class num_class + snd kd) kds)
    num_class
  = Ok (map fst kds, map (fun kd => snd kd / angle_per_class num_class) kds).
Proof.
  intros Hnc Hkds.
  rewrite encode_angle2class_np_elementwise by lia.
  rewrite !map_map. rewrite Forall_forall in Hkds.
  f_equal. f_equal; apply map_ext_in; intros [k d] Hin;
    destruct (Hkds _ Hin) as [Hk Hd];
    destruct (angle_in_bin num_class Hnc k d Hk Hd) as [Hc Hr]; assumption.
Qed.

Lemma encode_angle2class_np_bins_witness :
  encode_angle2class_np
    (map (fun kd => IZR (fst kd) * angle_per_class 4 + snd kd)
         [(3%Z, 0); (0%Z, 0)]) 4
  = Ok ([3%Z; 0%Z], map (fun kd => snd kd / angle_per_class 4)
                         [(3%Z, 0); (0%Z, 0)]).
Proof.
  apply (encode_angle2class_np_bins [(3%Z, 0); (0%Z, 0)] 4); [lia |].
  pose proof (angle_per_class_pos 4 ltac:(lia)).
  repeat constructor; simpl; try lia; lra.
Defined.

(** Decoding.  For [num_class >= 1] the encoder loses nothing but whole
    turns: [class_id * width + residual * width], normalised into [[0, 2π)],
    is the normalised input angle, for every angle of the array. *)
Theorem encode_angle2class_np_decode (angle : list R) (num_class : Z) :
  (1 <= num_class)%Z ->
  exists class_id residual_angle,
    encode_angle2class_np angle num_class = Ok (class_id, residual_angle)
    /\ zip_with (fun c r =>
                   Np.mod_ (IZR c * angle_per_class num_class
                            + r * angle_per_class num_class) (2 * PI))
                class_id residual_angle
       = map (fun a => Np.mod_ a (2 * PI)) angle.
Proof.
  intros Hnc. eexists _, _. split.
  - apply encode_angle2class_np_elementwise. lia.
  - rewrite zip_with_map. apply map_ext. intros a.
    apply angle_decode, Hnc.
Qed.

Lemma encode_angle2class_np_decode_witness :
  exists class_id residual_angle,
    encode_angle2class_np [1; -3] 12 = Ok (class_id, residual_angle)
    /\ zip_with (fun c r =>
                   Np.mod_ (IZR c * angle_per_class 12
                            + r * angle_per_class 12) (2 * PI))
                class_id residual_angle
       = map (fun a => Np.mod_ a (2 * PI)) [1; -3].
Proof. apply (encode_angle2class_np_decode [1; -3] 12). lia. Defined.

(** Rotation by one bin, in exact real arithmetic.  On real numbers, for
    [num_class >= 1], adding the bin width to every angle moves every class
    id to the next one, cyclically ([num_class - 1] goes to [0]), and leaves
    every residual as it is.  (In binary64 this fails within rounding of a
    bin boundary, where the class id can reach [num_class].) *)
Theorem encode_angle2class_np_next_bin (angle : list R) (num_class : Z) :
  (1 <= num_class)%Z ->
  exists class_id residual_angle,
    encode_angle2class_np angle num_class = Ok (class_id, residual_angle)
    /\ encode_angle2class_np
         (map (fun a => a + angle_per_class num_class) angle) num_class
       = Ok (map (fun c => ((c + 1) mod num_class)%Z) class_id, residual_angle).
Proof.
  intros Hnc. eexists _, _. split.
  - apply encode_angle2class_np_elementwise. lia.
  - rewrite encode_angle2class_np_elementwise by lia.
    rewrite !map_map.
    f_equal. f_equal; apply map_ext; intros a;
      destruct (angle_next_bin num_class Hnc a) as [Hc Hr]; assumption.
Qed.

Lemma encode_angle2class_np_next_bin_witness :
  exists class_id residual_angle,
    encode_angle2class_np [1; -3] 12 = Ok (class_id, residual_angle)
    /\ encode_angle2class_np
         (map (fun a => a + angle_per_class 12) [1; -3]) 12
       = Ok (map (fun c => ((c + 1) mod 12)%Z) class_id, residual_angle).
Proof. apply (encode_angle2class_np_next_bin [1; -3] 12). lia. Defined.

(** ** The box encoders: decoding and fixed points *)

Section BoxFacts.
Variables bs n : nat.
Variable T : list (list sample).
Hypothesis HT : shape2 bs n T.
Variables i j : nat.
Hypothesis Hi : (i < bs)%nat.
Hypothesis Hj : (j < n)%nat.

(** A property of all entries of a tensor of triples holds of the three
    components of each of its boxes. *)
Lemma Forall3_sample (P : R -> Prop) (p : sample -> vec3) :
  Forall (Forall (Forall P)) (map (map (fun z => row3 (p z))) T) ->
  P (fst (fst (p (sample_at T i j))))
  /\ P (snd (fst (p (sample_at T i j))))
  /\ P (snd (p (sample_at T i j))).
Proof.
  intros HP.
  assert (Hs : shape3 bs n 3 (map (map (fun z => row3 (p z))) T))
    by (apply shape3_map; [exact HT | reflexivity]).
  assert (H : forall c, (c < 3)%nat ->
                P (nth c (row3 (p (sample_at T i j))) 0)).
  { intros c Hc.
    rewrite <- (at3_map (fun z => row3 (p z)) bs n i j c T HT Hi Hj).
    now apply (at3_Forall P bs n 3). }
  repeat split; [apply (H 0%nat) | apply (H 1%nat) | apply (H 2%nat)]; lia.
Qed.

Lemma at3_sample (f : sample -> list R) (c : nat) :
  at3 (map (map f) T) i j c = nth c (f (sample_at T i j)) 0.
Proof. apply (at3_map f bs n); assumption. Qed.

End BoxFacts.

Ltac at_sample bs n T i j :=
  unfold t_gt_ctr, t_gt_offset, t_anchor_ctr, t_anchor_offset;
  rewrite !(at3_sample bs n T) by assumption;
  destruct (sample_at T i j)
    as [[[[[gx gy] gz] [[gl gh] gw]] [[ax ay] az]] [[al ah] aw]];
  cbn in *.

Ltac three_cases c :=
  destruct c as [| [| [| c]]]; [| | | lia].

(** Decoding the log-anchor encoding.  On tensors of shape [[bs, n, 3]] with
    positive dimensions, the ground truth is recovered from the anchor and
    the two outputs: [gt_ctr = encoded_ctr * (anchor_d, anchor_h, anchor_d) +
    anchor_ctr] and [gt_offset = exp encoded_offset * anchor_offset]. *)
Theorem encode_log_anchor_decode (bs n : nat)
        (gt_ctr gt_offset anchor_ctr anchor_offset : tensor3) :
  shape3 bs n 3 gt_ctr -> shape3 bs n 3 gt_offset ->
  shape3 bs n 3 anchor_ctr -> shape3 bs n 3 anchor_offset ->
  positive3 gt_offset -> positive3 anchor_offset ->
  exists encoded_ctr encoded_offset,
    encode_log_anchor_np gt_ctr gt_offset anchor_ctr anchor_offset
    = Ok (encoded_ctr, encoded_offset)
    /\ encode_log_anchor gt_ctr gt_offset anchor_ctr anchor_offset
       = Ok (encoded_ctr, encoded_offset)
    /\ forall i j, (i < bs)%nat -> (j < n)%nat ->
         let anchor_d := sqrt (at3 anchor_offset i j 0 ^ 2
                               + at3 anchor_offset i j 2 ^ 2) in
         at3 gt_ctr i j 0 = at3 encoded_ctr i j 0 * anchor_d + at3 anchor_ctr i j 0
         /\ at3 gt_ctr i j 1
            = at3 encoded_ctr i j 1 * at3 anchor_offset i j 1
              + at3 anchor_ctr i j 1
         /\ at3 gt_ctr i j 2
            = at3 encoded_ctr i j 2 * anchor_d + at3 anchor_ctr i j 2
         /\ forall c, (c < 3)%nat ->
              at3 gt_offset i j c
              = exp (at3 encoded_offset i j c) * at3 anchor_offset i j c.
Proof.
  intros H1 H2 H3 H4 Hgt Han. over_samples T HT.
  exists (map (map log_anchor_ctr_box) T), (map (map log_anchor_offset_box) T).
  split; [apply encode_log_anchor_np_over |].
  split; [apply encode_log_anchor_over |].
  intros i j Hi Hj.
  pose proof (Forall3_sample bs n T HT i j Hi Hj _ s_gt_offset Hgt) as Pg.
  pose proof (Forall3_sample bs n T HT i j Hi Hj _ s_anchor_offset Han) as Pa.
  cbv zeta. rewrite <- !Rsqr_pow2. unfold Rsqr.
  split; [| split; [| split]]; try intros c Hc; revert Pg Pa;
    at_sample bs n T i j; intros (Pl & Ph & Pw) (Ql & Qh & Qw).
  - assert (0 < sqrt (al * al + aw * aw)) by (apply sqrt_lt_R0; nra).
    field. lra.
  - field. lra.
  - assert (0 < sqrt (al * al + aw * aw)) by (apply sqrt_lt_R0; nra).
    field. lra.
  - three_cases c; cbn; rewrite exp_ln by (apply Rdiv_lt_0_compat; assumption);
      field; lra.
Qed.

Lemma encode_log_anchor_decode_witness :
  exists encoded_ctr encoded_offset,
    encode_log_anchor_np [[[1; 2; 3]]] [[[2; 4; 6]]] [[[0; 0; 0]]] [[[3; 2; 4]]]
    = Ok (encoded_ctr, encoded_offset)
    /\ 2 = at3 encoded_ctr 0 0 1 * 2 + 0
    /\ 6 = exp (at3 encoded_offset 0 0 2) * 4.
Proof.
  destruct (encode_log_anchor_decode 1 1
              [[[1; 2; 3]]] [[[2; 4; 6]]] [[[0; 0; 0]]] [[[3; 2; 4]]]
              ltac:(shape_of_literal) ltac:(shape_of_literal)
              ltac:(shape_of_literal) ltac:(shape_of_literal)
              ltac:(shape_of_literal) ltac:(shape_of_literal))
    as (ec & eo & Hnp & _ & H).
  exists ec, eo.
  destruct (H 0%nat 0%nat ltac:(lia) ltac:(lia)) as (_ & Hy & _ & Ho).
  split; [exact Hnp |]. split; [exact Hy | apply (Ho 2%nat); lia].
Defined.

(** A box that equals its anchor has the zero log-anchor encoding: on tensors
    of shape [[bs, n, 3]] with positive dimensions, if the ground truth is
    the anchor, every entry of both outputs is [0]. *)
Theorem encode_log_anchor_fixed_point (bs n : nat)
        (gt_ctr gt_offset anchor_ctr anchor_offset : tensor3) :
  shape3 bs n 3 gt_ctr -> shape3 bs n 3 gt_offset ->
  shape3 bs n 3 anchor_ctr -> shape3 bs n 3 anchor_offset ->
  positive3 anchor_offset ->
  gt_ctr = anchor_ctr -> gt_offset = anchor_offset ->
  exists encoded_ctr encoded_offset,
    encode_log_anchor_np gt_ctr gt_offset anchor_ctr anchor_offset
    = Ok (encoded_ctr, encoded_offset)
    /\ encode_log_anchor gt_ctr gt_offset anchor_ctr anchor_offset
       = Ok (encoded_ctr, encoded_offset)
    /\ forall i j c, (i < bs)%nat -> (j < n)%nat -> (c < 3)%nat ->
         at3 encoded_ctr i j c = 0 /\ at3 encoded_offset i j c = 0.
Proof.
  intros H1 H2 H3 H4 Han Ec Eo.
  assert (Ec' : forall i j c, at3 gt_ctr i j c = at3 anchor_ctr i j c)
    by (intros; now rewrite Ec).
  assert (Eo' : forall i j c, at3 gt_offset i j c = at3 anchor_offset i j c)
    by (intros; now rewrite Eo).
  clear Ec Eo. over_samples T HT.
  exists (map (map log_anchor_ctr_box) T), (map (map log_anchor_offset_box) T).
  split; [apply encode_log_anchor_np_over |].
  split; [apply encode_log_anchor_over |].
  intros i j c Hi Hj Hc.
  pose proof (Forall3_sample bs n T HT i j Hi Hj _ s_anchor_offset Han) as Pa.
  pose proof (conj (Ec' i j 0%nat) (conj (Ec' i j 1%nat) (Ec' i j 2%nat))) as Qc.
  pose proof (conj (Eo' i j 0%nat) (conj (Eo' i j 1%nat) (Eo' i j 2%nat))) as Qo.
  clear Ec' Eo'. revert Pa Qc Qo.
  at_sample bs n T i j.
  intros (Pl & Ph & Pw) (-> & -> & ->) (-> & -> & ->).
  assert (0 < sqrt (al * al + aw * aw)) by (apply sqrt_lt_R0; nra).
  three_cases c; cbn; split; try (field; lra);
    (replace (_ / _) with 1 by (field; lra)); apply ln_1.
Qed.

Lemma encode_log_anchor_fixed_point_witness :
  exists encoded_ctr encoded_offset,
    encode_log_anchor [[[1; 2; 3]]] [[[3; 2; 4]]] [[[1; 2; 3]]] [[[3; 2; 4]]]
    = Ok (encoded_ctr, encoded_offset)
    /\ at3 encoded_ctr 0 0 0 = 0 /\ at3 encoded_offset 0 0 0 = 0.
Proof.
  destruct (encode_log_anchor_fixed_point 1 1
              [[[1; 2; 3]]] [[[3; 2; 4]]] [[[1; 2; 3]]] [[[3; 2; 4]]]
              ltac:(shape_of_literal) ltac:(shape_of_literal)
              ltac:(shape_of_literal) ltac:(shape_of_literal)
              ltac:(shape_of_literal) eq_refl eq_refl)
    as (ec & eo & _ & Htf & H).
  exists ec, eo. split; [exact Htf |].
  apply (H 0%nat 0%nat 0%nat); lia.
Defined.

(** Decoding the distance-anchor encoding.  On tensors of shape [[bs, n, 3]]
    with non-zero anchor dimensions the ground truth is recovered entry by
    entry: [gt_ctr = encoded_ctr + anchor_ctr] and [gt_offset =
    encoded_offset * anchor_offset + anchor_offset]. *)
Theorem encode_dist_anchor_decode (bs n : nat)
        (gt_ctr gt_offset anchor_ctr anchor_offset : tensor3) :
  shape3 bs n 3 gt_ctr -> shape3 bs n 3 gt_offset ->
  shape3 bs n 3 anchor_ctr -> shape3 bs n 3 anchor_offset ->
  nonzero3 anchor_offset ->
  exists encoded_ctr encoded_offset,
    encode_dist_anchor gt_ctr gt_offset anchor_ctr anchor_offset
    = Ok (encoded_ctr, encoded_offset)
    /\ forall i j c, (i < bs)%nat -> (j < n)%nat -> (c < 3)%nat ->
         at3 gt_ctr i j c = at3 encoded_ctr i j c + at3 anchor_ctr i j c
         /\ at3 gt_offset i j c
            = at3 encoded_offset i j c * at3 anchor_offset i j c
              + at3 anchor_offset i j c.
Proof.
  intros H1 H2 H3 H4 Hnz. over_samples T HT.
  exists (map (map dist_anchor_ctr_box) T), (map (map dist_anchor_offset_box) T).
  split; [apply encode_dist_anchor_over |].
  intros i j c Hi Hj Hc.
  pose proof (Forall3_sample bs n T HT i j Hi Hj _ s_anchor_offset Hnz) as Pa.
  revert Pa. at_sample bs n T i j. intros (Pl & Ph & Pw).
  three_cases c; cbn; split; try ring; field; assumption.
Qed.

Lemma encode_dist_anchor_decode_witness :
  exists encoded_ctr encoded_offset,
    encode_dist_anchor [[[1; 2; 3]]] [[[2; 4; 6]]] [[[0; 0; 0]]] [[[1; -2; 3]]]
    = Ok (encoded_ctr, encoded_offset)
    /\ 4 = at3 encoded_offset 0 0 1 * -2 + -2.
Proof.
  destruct (encode_dist_anchor_decode 1 1
              [[[1; 2; 3]]] [[[2; 4; 6]]] [[[0; 0; 0]]] [[[1; -2; 3]]]
              ltac:(shape_of_literal) ltac:(shape_of_literal)
              ltac:(shape_of_literal) ltac:(shape_of_literal)
              ltac:(shape_of_literal))
    as (ec & eo & Hrun & H).
  exists ec, eo. split; [exact Hrun |].
  apply (H 0%nat 0%nat 1%nat); lia.
Defined.

(** Decoding the anchor-free encoding.  On tensors of shape [[bs, n, 3]] the
    ground truth is recovered from [anchor_ctr] and the two outputs:
    [gt_offset = 2 * target_ctr_half], and [gt_ctr = encoded_ctr +
    anchor_ctr + (0, target_ctr_half_y, 0)]. *)
Theorem encode_dist_anchor_free_decode (bs n : nat)
        (gt_ctr gt_offset anchor_ctr : tensor3)
        (anchor_offset : option tensor3) :
  shape3 bs n 3 gt_ctr -> shape3 bs n 3 gt_offset ->
  shape3 bs n 3 anchor_ctr ->
  exists encoded_ctr target_ctr_half,
    encode_dist_anchor_free_np gt_ctr gt_offset anchor_ctr anchor_offset
    = Ok (encoded_ctr, target_ctr_half)
    /\ encode_dist_anchor_free gt_ctr gt_offset anchor_ctr anchor_offset
       = Ok (encoded_ctr, target_ctr_half)
    /\ forall i j, (i < bs)%nat -> (j < n)%nat ->
         (forall c, (c < 3)%nat ->
            at3 gt_offset i j c = 2 * at3 target_ctr_half i j c)
         /\ at3 gt_ctr i j 0 = at3 encoded_ctr i j 0 + at3 anchor_ctr i j 0
         /\ at3 gt_ctr i j 1
            = at3 encoded_ctr i j 1 + at3 anchor_ctr i j 1
              + at3 target_ctr_half i j 1
         /\ at3 gt_ctr i j 2 = at3 encoded_ctr i j 2 + at3 anchor_ctr i j 2.
Proof.
  intros H1 H2 H3.
  destruct (samples_of_tensors bs n gt_ctr gt_offset anchor_ctr gt_offset
                               H1 H2 H3 H2) as (T & HT & E1 & E2 & E3 & _).
  subst gt_ctr gt_offset anchor_ctr.
  exists (map (map anchor_free_ctr_box) T), (map (map anchor_free_half_box) T).
  split; [apply encode_dist_anchor_free_np_over |].
  split; [apply encode_dist_anchor_free_over |].
  intros i j Hi Hj.
  split; [| split; [| split]]; try intros c Hc; at_sample bs n T i j;
    try (three_cases c; cbn); field.
Qed.

Lemma encode_dist_anchor_free_decode_witness :
  exists encoded_ctr target_ctr_half,
    encode_dist_anchor_free [[[1; 2; 3]]] [[[2; 4; 6]]] [[[0; 0; 0]]] None
    = Ok (encoded_ctr, target_ctr_half)
    /\ 2 = at3 encoded_ctr 0 0 1 + 0 + at3 target_ctr_half 0 0 1.
Proof.
  destruct (encode_dist_anchor_free_decode 1 1
              [[[1; 2; 3]]] [[[2; 4; 6]]] [[[0; 0; 0]]] None
              ltac:(shape_of_literal) ltac:(shape_of_literal)
              ltac:(shape_of_literal))
    as (ec & half & _ & Htf & H).
  exists ec, half. split; [exact Htf |].
  destruct (H 0%nat 0%nat ltac:(lia) ltac:(lia)) as (_ & _ & Hy & _).
  exact Hy.
Defined.

(** ** The box encoders: what they raise *)

Section Raising.

Lemma mapM_raise_first {A B : Type} (f : A -> result B) (x : A) (l : list A)
      (e : exn) :
  f x = Raise e -> mapM f (x :: l) = Raise e.
Proof. intros H. simpl. rewrite H. reflexivity. Qed.

(** A non-empty tensor has a first row, of the width that its shape says. *)
Lemma first_row (bs n k : nat) (t : tensor3) :
  shape3 bs n k t -> (0 < bs)%nat -> (0 < n)%nat ->
  exists row rows t', t = (row :: rows) :: t' /\ length row = k.
Proof.
  intros [[Hl Hn] Hk] Hbs Hpos.
  destruct t as [| [| row rows] t']; simpl in Hl.
  - lia.
  - inversion Hn as [| ? ? Hr _]. simpl in Hr. lia.
  - exists row, rows, t'. split; [reflexivity |].
    inversion Hk as [| ? ? Hrow _]. inversion Hrow as [| ? ? Hw _]. exact Hw.
Qed.

Lemma mapM2_raise_first {B : Type} (f : list R -> result B) (e : exn)
      (bs n k : nat) (t : tensor3) :
  shape3 bs n k t -> (0 < bs)%nat -> (0 < n)%nat ->
  (forall row, length row = k -> f row = Raise e) ->
  mapM (mapM f) t = Raise e.
Proof.
  intros Ht Hbs Hn Hf.
  destruct (first_row bs n k t Ht Hbs Hn) as (row & rows & t' & -> & Hw).
  apply mapM_raise_first, mapM_raise_first, Hf, Hw.
Qed.

End Raising.

(** The log-anchor encoders unpack [gt_offset] first.  On a non-empty
    [gt_offset] of shape [[bs, n, k]], whatever the other arguments are, the
    TensorFlow encoder raises [ValueError] unless [k] is 3, and the NumPy
    encoder raises [ValueError] unless [k] is a multiple of 3. *)
Theorem encode_log_anchor_last_axis (bs n k : nat)
        (gt_ctr gt_offset anchor_ctr anchor_offset : tensor3) :
  shape3 bs n k gt_offset -> (0 < bs)%nat -> (0 < n)%nat ->
  (k <> 3%nat ->
   encode_log_anchor gt_ctr gt_offset anchor_ctr anchor_offset
   = Raise ValueError)
  /\ ((k mod 3)%nat <> 0%nat ->
      encode_log_anchor_np gt_ctr gt_offset anchor_ctr anchor_offset
      = Raise ValueError).
Proof.
  intros Ht Hbs Hn. split; intros Hk.
  - unfold encode_log_anchor, Tf.unstack3.
    rewrite (mapM2_raise_first _ ValueError bs n k); try assumption;
      [reflexivity |].
    intros [| a [| b [| c [| d row]]]] Hw; simpl in Hw; try reflexivity; lia.
  - unfold encode_log_anchor_np, NpT.split3.
    rewrite (mapM2_raise_first _ ValueError bs n k); try assumption;
      [reflexivity |].
    intros row Hw. unfold NpT.split3_row. rewrite Hw.
    destruct (Nat.eqb_spec (k mod 3) 0); [contradiction | reflexivity].
Qed.

Lemma encode_log_anchor_last_axis_witness :
  encode_log_anchor [[[1; 2; 3]]] [[[2; 4]]] [[[0; 0; 0]]] [[[3; 2; 4]]]
  = Raise ValueError
  /\ encode_log_anchor_np [[[1; 2; 3]]] [[[2; 4]]] [[[0; 0; 0]]] [[[3; 2; 4]]]
     = Raise ValueError.
Proof.
  destruct (encode_log_anchor_last_axis 1 1 2
              [[[1; 2; 3]]] [[[2; 4]]] [[[0; 0; 0]]] [[[3; 2; 4]]]
              ltac:(shape_of_literal) ltac:(lia) ltac:(lia)) as [Htf Hnp].
  split; [apply Htf; lia | apply Hnp; simpl; lia].
Defined.

(** The anchor-free encoders read column 1 of [gt_offset / 2].  On a
    non-empty [gt_offset] of shape [[bs, n, k]] with [k < 2], whatever the
    other arguments are, the NumPy encoder raises [IndexError] and the
    TensorFlow encoder raises [ValueError]. *)
Theorem encode_dist_anchor_free_last_axis (bs n k : nat)
        (gt_ctr gt_offset anchor_ctr : tensor3)
        (anchor_offset : option tensor3) :
  shape3 bs n k gt_offset -> (0 < bs)%nat -> (0 < n)%nat -> (k < 2)%nat ->
  encode_dist_anchor_free_np gt_ctr gt_offset anchor_ctr anchor_offset
  = Raise IndexError
  /\ encode_dist_anchor_free gt_ctr gt_offset anchor_ctr anchor_offset
     = Raise ValueError.
Proof.
  intros Ht Hbs Hn Hk.
  assert (Hhalf : shape3 bs n k (map (map (map (fun x => x / 2))) gt_offset)).
  { destruct Ht as [Hs Hw]. split; [apply shape2_map, Hs |].
    apply Forall_map. eapply Forall_impl; [| exact Hw]. intros r Hr.
    apply Forall_map. eapply Forall_impl; [| exact Hr]. intros row Hrow.
    now rewrite length_map. }
  assert (Hnone : forall row : list R, length row = k -> nth_error row 1 = None)
    by (intros row Hw; apply nth_error_None; lia).
  split.
  - unfold encode_dist_anchor_free_np, NpT.index_last_1, NpT.div_scalar.
    rewrite (mapM2_raise_first _ IndexError bs n k); try assumption;
      [reflexivity |].
    intros row Hw. now rewrite Hnone.
  - unfold encode_dist_anchor_free, Tf.index_last_1, Tf.div_scalar.
    rewrite (mapM2_raise_first _ ValueError bs n k); try assumption;
      [reflexivity |].
    intros row Hw. now rewrite Hnone.
Qed.

Lemma encode_dist_anchor_free_last_axis_witness :
  encode_dist_anchor_free_np [[[1; 2; 3]]] [[[2]]] [[[0; 0; 0]]] None
  = Raise IndexError
  /\ encode_dist_anchor_free [[[1; 2; 3]]] [[[2]]] [[[0; 0; 0]]] None
     = Raise ValueError.
Proof.
  apply (encode_dist_anchor_free_last_axis 1 1 1
           [[[1; 2; 3]]] [[[2]]] [[[0; 0; 0]]] None);
    [shape_of_literal | lia | lia | lia].
Defined.

(** ** The distance-anchor encoder: batch axes that differ *)

Section BatchAxes.
Lemma mapM_raises {A C : Type} (f : A -> result C) (l : list A) (e0 : exn) :
  (forall x e, f x = Raise e -> e = e0) ->
  forall e, mapM f l = Raise e -> e = e0.
Proof.
  intros Hf. induction l as [| x l IH]; simpl; intros e H; [discriminate H |].
  destruct (f x) as [c |] eqn:Ex; simpl in H.
  - destruct (mapM f l) as [cs |]; simpl in H; [discriminate H |].
    apply IH. exact H.
  - inversion H; subst. apply (Hf x), Ex.
Qed.

Lemma zipM_raises {A B C : Type} (f : A -> B -> result C) (a : list A) (b : list B) :
  (forall x y e, f x y = Raise e -> e = ValueError) ->
  forall e, zipM f a b = Raise e -> e = ValueError.
Proof.
  intros Hf. revert b. induction a as [| x a IH]; intros [| y b] e H;
    simpl in H; try discriminate H; try (now inversion H).
  destruct (f x y) as [c |] eqn:Ex; simpl in H.
  - destruct (zipM f a b) as [cs |] eqn:Ez; simpl in H; [discriminate H |].
    apply (IH b). rewrite Ez. exact H.
  - inversion H; subst. apply (Hf x y), Ex.
Qed.

Lemma broadcast_raises {A B C : Type} (f : A -> B -> result C) (a : list A) (b : list B) :
  (forall x y e, f x y = Raise e -> e = ValueError) ->
  forall e, broadcast f a b = Raise e -> e = ValueError.
Proof.
  intros Hf e. unfold broadcast.
  destruct a as [| x [| x' a]]; destruct b as [| y [| y' b]];
    try apply zipM_raises; try assumption;
    apply mapM_raises; intros z e'; apply Hf.
Qed.

Lemma mapM_length {A C : Type} (f : A -> result C) (l : list A) (cs : list C) :
  mapM f l = Ok cs -> length cs = length l.
Proof.
  revert cs. induction l as [| x l IH]; simpl; intros cs H.
  - inversion H. reflexivity.
  - destruct (f x) as [c |]; simpl in H; [| discriminate H].
    destruct (mapM f l) as [cs' |]; simpl in H; [| discriminate H].
    inversion H. simpl. f_equal. apply IH. reflexivity.
Qed.

Lemma zipM_length {A B C : Type} (f : A -> B -> result C) (a : list A) (b : list B)
      (cs : list C) :
  zipM f a b = Ok cs -> length a = length b /\ length cs = length a.
Proof.
  revert b cs. induction a as [| x a IH]; intros [| y b] cs H; simpl in H;
    try discriminate H.
  - inversion H. split; reflexivity.
  - destruct (f x y) as [c |]; simpl in H; [| discriminate H].
    destruct (zipM f a b) as [cs' |] eqn:Ez; simpl in H; [| discriminate H].
    inversion H. destruct (IH b cs' Ez) as [E1 E2]. simpl. split; congruence.
Qed.

(** Broadcasting succeeds only on axes of one length or with an axis of
    length 1. *)
Lemma broadcast_Ok_lengths {A B C : Type} (f : A -> B -> result C) (a : list A) (b : list B)
      (cs : list C) :
  broadcast f a b = Ok cs ->
  length a = length b \/ length a = 1%nat \/ length b = 1%nat.
Proof.
  unfold broadcast.
  destruct a as [| x [| x' a]]; destruct b as [| y [| y' b]]; intros H;
    simpl; auto; apply zipM_length in H; simpl in H; destruct H as [H _];
    left; exact H.
Qed.

(** An axis of length 1 on the right acts as its entry repeated. *)
Lemma broadcast_stretch {A B C : Type} (f : A -> B -> result C) (a : list A) (y : B) :
  broadcast f a [y] = broadcast f a (repeat y (length a)).
Proof.
  rewrite (broadcast_same_length f a (repeat y (length a)))
    by (now rewrite repeat_length).
  destruct a as [| x [| x' a]]; try reflexivity.
  unfold broadcast.
  generalize (x :: x' :: a) as l. clear.
  induction l as [| x l IH]; simpl; [reflexivity |]. now rewrite IH.
Qed.

Lemma broadcast_length_r {A B C : Type} (f : A -> B -> result C) (a : list A) (y : B)
      (cs : list C) :
  broadcast f a [y] = Ok cs -> length cs = length a.
Proof.
  rewrite broadcast_stretch, broadcast_same_length
    by (now rewrite repeat_length).
  intros H. apply zipM_length in H. apply H.
Qed.

End BatchAxes.

Lemma elementwise3_raises (f : R -> R -> R) (a b : tensor3) (e : exn) :
  elementwise3 f a b = Raise e -> e = ValueError.
Proof.
  unfold elementwise3. apply broadcast_raises.
  intros r s. apply broadcast_raises.
  intros x y. apply broadcast_raises.
  intros u v e' H. discriminate H.
Qed.

Lemma elementwise3_mismatch (f : R -> R -> R) (a b : tensor3) :
  length a <> length b -> length a <> 1%nat -> length b <> 1%nat ->
  elementwise3 f a b = Raise ValueError.
Proof.
  intros H1 H2 H3. destruct (elementwise3 f a b) as [c | e] eqn:E.
  - apply broadcast_Ok_lengths in E. tauto.
  - f_equal. apply (elementwise3_raises f a b), E.
Qed.

(** Batch sizes that cannot be broadcast.  If the ground truth and the anchor
    differ in batch size, for the centers or for the offsets, and neither
    batch size is 1, [encode_dist_anchor] raises [ValueError], whatever else
    the tensors hold. *)
Theorem encode_dist_anchor_batch_mismatch
        (gt_ctr gt_offset anchor_ctr anchor_offset : tensor3) :
  (length gt_ctr <> length anchor_ctr
   /\ length gt_ctr <> 1%nat /\ length anchor_ctr <> 1%nat)
  \/ (length gt_offset <> length anchor_offset
      /\ length gt_offset <> 1%nat /\ length anchor_offset <> 1%nat) ->
  encode_dist_anchor gt_ctr gt_offset anchor_ctr anchor_offset
  = Raise ValueError.
Proof.
  intros H. unfold encode_dist_anchor.
  destruct (elementwise3 Rminus gt_ctr anchor_ctr) as [ec | e] eqn:E1.
  - destruct H as [(H1 & H2 & H3) | (H1 & H2 & H3)].
    + rewrite elementwise3_mismatch in E1 by assumption. discriminate E1.
    + rewrite elementwise3_mismatch by assumption. reflexivity.
  - apply elementwise3_raises in E1. subst e. reflexivity.
Qed.

Lemma encode_dist_anchor_batch_mismatch_witness :
  encode_dist_anchor [[[1; 2; 3]]; [[1; 2; 3]]] [[[2; 4; 6]]]
                     [[[0; 0; 0]]; [[0; 0; 0]]; [[0; 0; 0]]] [[[1; 2; 3]]]
  = Raise ValueError.
Proof.
  apply encode_dist_anchor_batch_mismatch. left. simpl. repeat split; lia.
Defined.

(** One anchor for the whole batch.  Anchor tensors whose batch axis has
    length 1 are broadcast: on ground-truth tensors of batch size [bs],
    [encode_dist_anchor] does with [[anchor_ctr]] and [[anchor_offset]] what
    it does with the two anchors repeated [bs] times. *)
Theorem encode_dist_anchor_shared_anchor (bs : nat)
        (gt_ctr gt_offset : tensor3) (anchor_ctr anchor_offset : list (list R)) :
  length gt_ctr = bs -> length gt_offset = bs ->
  encode_dist_anchor gt_ctr gt_offset [anchor_ctr] [anchor_offset]
  = encode_dist_anchor gt_ctr gt_offset
                       (repeat anchor_ctr bs) (repeat anchor_offset bs).
Proof.
  intros Hc Ho. unfold encode_dist_anchor, elementwise3.
  rewrite (broadcast_stretch _ gt_ctr), (broadcast_stretch _ gt_offset).
  rewrite Hc, Ho.
  destruct (broadcast _ gt_ctr (repeat anchor_ctr bs)) as [ec | e];
    [| reflexivity].
  destruct (broadcast _ gt_offset (repeat anchor_offset bs)) as [d | e] eqn:Ed;
    [| reflexivity].
  cbn [bind]. rewrite (broadcast_stretch _ d).
  replace (length d) with bs; [reflexivity |].
  rewrite <- Ho in Ed. rewrite <- broadcast_stretch in Ed.
  apply broadcast_length_r in Ed. congruence.
Qed.

Lemma encode_dist_anchor_shared_anchor_witness :
  encode_dist_anchor [[[1; 2; 3]]; [[4; 5; 6]]] [[[2; 4; 6]]; [[1; 1; 1]]]
                     [[[0; 0; 0]]] [[[1; 2; 3]]]
  = encode_dist_anchor [[[1; 2; 3]]; [[4; 5; 6]]] [[[2; 4; 6]]; [[1; 1; 1]]]
                       (repeat [[0; 0; 0]] 2) (repeat [[1; 2; 3]] 2).
Proof.
  apply (encode_dist_anchor_shared_anchor 2); reflexivity.
Defined.

(** ** The log-anchor encoder: change of the unit of length *)

Section Scaling.
Variable s : R.
Hypothesis Hs : 0 < s.

Lemma scale3_samples (T : list (list sample)) :
  scale3 s (t_gt_ctr T) = t_gt_ctr (map (map (scale_sample s)) T)
  /\ scale3 s (t_gt_offset T) = t_gt_offset (map (map (scale_sample s)) T)
  /\ scale3 s (t_anchor_ctr T) = t_anchor_ctr (map (map (scale_sample s)) T)
  /\ scale3 s (t_anchor_offset T)
     = t_anchor_offset (map (map (scale_sample s)) T).
Proof.
  unfold scale3, t_gt_ctr, t_gt_offset, t_anchor_ctr, t_anchor_offset.
  rewrite !map2_map2. repeat split; apply map2_ext; intros z; reflexivity.
Qed.

Lemma map2_ext_Forall {X Y : Type} (P : X -> Prop) (f g : X -> Y)
      (U : list (list X)) :
  Forall (Forall P) U -> (forall z, P z -> f z = g z) ->
  map (map f) U = map (map g) U.
Proof.
  intros HU Hfg. induction HU as [| r U Hr _ IH]; simpl; [reflexivity |].
  rewrite IH. f_equal.
  induction Hr as [| z r Hz _ IHr]; simpl; [reflexivity |].
  rewrite IHr, Hfg by exact Hz. reflexivity.
Qed.

Lemma positive_anchor_samples (T : list (list sample)) :
  positive3 (t_anchor_offset T) ->
  Forall (Forall (fun z => 0 < fst (fst (s_anchor_offset z))
                           /\ 0 < snd (fst (s_anchor_offset z))
                           /\ 0 < snd (s_anchor_offset z))) T.
Proof.
  unfold positive3, t_anchor_offset. intros H.
  rewrite Forall_map in H. eapply Forall_impl; [| exact H].
  intros r Hr. rewrite Forall_map in Hr. eapply Forall_impl; [| exact Hr].
  intros z Hz. unfold row3 in Hz.
  inversion Hz as [| ? ? H0 Hz1]; subst.
  inversion Hz1 as [| ? ? H1 Hz2]; subst.
  inversion Hz2 as [| ? ? H2 _]; subst. auto.
Qed.

Lemma sqrt_scaled (l w : R) :
  sqrt (s * l * (s * l) + s * w * (s * w)) = s * sqrt (l * l + w * w).
Proof.
  replace (s * l * (s * l) + s * w * (s * w)) with (s * s * (l * l + w * w))
    by ring.
  rewrite sqrt_mult by nra. rewrite sqrt_square by lra. reflexivity.
Qed.

Lemma log_anchor_box_scaled (z : sample) :
  0 < fst (fst (s_anchor_offset z))
  /\ 0 < snd (fst (s_anchor_offset z))
  /\ 0 < snd (s_anchor_offset z) ->
  log_anchor_ctr_box (scale_sample s z) = log_anchor_ctr_box z
  /\ log_anchor_offset_box (scale_sample s z) = log_anchor_offset_box z.
Proof.
  destruct z as [[[[[gx gy] gz] [[gl gh] gw]] [[ax ay] az]] [[al ah] aw]].
  cbn. intros (Pl & Ph & Pw).
  assert (0 < sqrt (al * al + aw * aw)) by (apply sqrt_lt_R0; nra).
  assert (L : forall a b c a' b' c' : R,
             a = a' -> b = b' -> c = c' -> [a; b; c] = [a'; b'; c'])
    by (intros; subst; reflexivity).
  split.
  - rewrite sqrt_scaled. apply L; field; lra.
  - apply L; apply f_equal; field; lra.
Qed.

End Scaling.

(** Scale invariance.  On tensors of shape [[bs, n, 3]] with positive anchor
    dimensions, multiplying all four inputs by one positive number (a change
    of the unit of length) changes nothing in what either log-anchor encoder
    returns. *)
Theorem encode_log_anchor_scale_invariant (bs n : nat) (s : R)
        (gt_ctr gt_offset anchor_ctr anchor_offset : tensor3) :
  shape3 bs n 3 gt_ctr -> shape3 bs n 3 gt_offset ->
  shape3 bs n 3 anchor_ctr -> shape3 bs n 3 anchor_offset ->
  positive3 anchor_offset -> 0 < s ->
  encode_log_anchor (scale3 s gt_ctr) (scale3 s gt_offset)
                    (scale3 s anchor_ctr) (scale3 s anchor_offset)
  = encode_log_anchor gt_ctr gt_offset anchor_ctr anchor_offset
  /\ encode_log_anchor_np (scale3 s gt_ctr) (scale3 s gt_offset)
                          (scale3 s anchor_ctr) (scale3 s anchor_offset)
     = encode_log_anchor_np gt_ctr gt_offset anchor_ctr anchor_offset.
Proof.
  intros H1 H2 H3 H4 Han Hs. over_samples T HT.
  destruct (scale3_samples s T) as (-> & -> & -> & ->).
  rewrite !encode_log_anchor_over, !encode_log_anchor_np_over.
  rewrite !map2_map2.
  pose proof (positive_anchor_samples T Han) as HP.
  assert (E : map (map (fun z => log_anchor_ctr_box (scale_sample s z))) T
              = map (map log_anchor_ctr_box) T
              /\ map (map (fun z => log_anchor_offset_box (scale_sample s z))) T
                 = map (map log_anchor_offset_box) T).
  { split; apply (map2_ext_Forall _ _ _ T HP); intros z Hz;
      apply (log_anchor_box_scaled s Hs z Hz). }
  destruct E as [-> ->]. split; reflexivity.
Qed.

Lemma encode_log_anchor_scale_invariant_witness :
  encode_log_anchor (scale3 100 [[[1; 2; 3]]]) (scale3 100 [[[2; 4; 6]]])
                    (scale3 100 [[[0; 0; 0]]]) (scale3 100 [[[3; 2; 4]]])
  = encode_log_anchor [[[1; 2; 3]]] [[[2; 4; 6]]] [[[0; 0; 0]]] [[[3; 2; 4]]].
Proof.
  apply (encode_log_anchor_scale_invariant 1 1 100
           [[[1; 2; 3]]] [[[2; 4; 6]]] [[[0; 0; 0]]] [[[3; 2; 4]]]);
    try shape_of_literal; lra.
Defined.

(** * Rounding: the angle encoder in binary64 *)

(** C4 (what the code does at two failing inputs).  In binary64 the class id
    leaves [{0..num_class-1}] within rounding of the upper boundary of the
    last bin: for [23*np.pi/12] and 12 classes the encoder returns class 12,
    and for [np.pi + 2*np.pi/3] and 3 classes it returns class 3.  (The sum
    of the angle and half a bin is rounded to a number just below [2π], which
    the modulo leaves as it is, and the quotient by the bin width is rounded
    up to [num_class].) *)
Theorem binary64_class_id_out_of_range :
  (exists residual_angle,
      Binary64.encode_angle2class_np [Binary64.pi_times 23 12] 12
      = Ok ([12%Z], residual_angle))
  /\ (exists residual_angle,
         Binary64.encode_angle2class_np [Binary64.plus_bin Binary64.pi 3] 3
         = Ok ([3%Z], residual_angle))
  /\ ~ (0 <= 12 <= 12 - 1)%Z /\ ~ (0 <= 3 <= 3 - 1)%Z.
Proof.
  split; [eexists; vm_compute; reflexivity |].
  split; [eexists; vm_compute; reflexivity |].
  split; lia.
Qed.

(** C5 (counterexample).  In binary64 the encoder is not periodic: with 4
    classes, [3*np.pi/4] is encoded with class 2 and [3*np.pi/4 + 2*np.pi]
    with class 1, so the two results differ. *)
Lemma binary64_not_periodic :
  (exists residual_angle,
      Binary64.encode_angle2class_np [Binary64.pi_times 3 4] 4
      = Ok ([2%Z], residual_angle))
  /\ (exists residual_angle,
         Binary64.encode_angle2class_np
           [Binary64.plus_turns (Binary64.pi_times 3 4) 1] 4
         = Ok ([1%Z], residual_angle))
  /\ Binary64.encode_angle2class_np
       [Binary64.plus_turns (Binary64.pi_times 3 4) 1] 4
     <> Binary64.encode_angle2class_np [Binary64.pi_times 3 4] 4.
Proof.
  split; [eexists; vm_compute; reflexivity |].
  split; [eexists; vm_compute; reflexivity |].
  vm_compute. intros H. discriminate H.
Qed.
